(** * Smartnode: the watchtower's rewards-tree generation task and the
      wallet purge call

    A shallow embedding of
    - [generateRewardsTree.run], [generateRewardsTree.generateRewardsTree]
      and [generateRewardsTree.handleError] (package [watchtower]), and
    - [purge] (package [wallet]),
    together with the statements of the design document that concern them.

    Go values are modelled as follows: [uint64]/[int64] are integers of [Z]
    with the wrap-around written out, [string] and [[]byte] holding text are
    [string], an [error] is the text [err.Error()] returns, a pair
    [(v, err)] is a [result], loggers are the lists of the lines printed on
    them, and the filesystem and the remote services are explicit
    components of the state or of an environment record. *)

From stdpp Require Import base strings list gmap pretty sorting relations.
From Stdlib Require Import ZArith Lia.
From Stdlib.Strings Require Byte.
Local Open Scope Z_scope.

(** ** Go values *)

(** An [error], by its message. *)
Abbreviation error := string (only parsing).

(** The pair [(v, err)] a fallible Go call returns. *)
Inductive result (A : Type) : Type :=
| Ok (a : A)
| Err (e : error).
Arguments Ok {A} a.
Arguments Err {A} e.

Definition is_err {A} (r : result A) : bool :=
  match r with Ok _ => false | Err _ => true end.

(** [uint64(z)]: the value of [z] in 64 bits, unsigned. *)
Definition uint64 (z : Z) : Z := z mod 2 ^ 64.

(** [int64(z)]: the value of [z] in 64 bits, two's complement. *)
Definition int64 (z : Z) : Z := (z + 2 ^ 63) mod 2 ^ 64 - 2 ^ 63.

(** [strings.HasSuffix(s, suffix)]:
    [len(s) >= len(suffix) && s[len(s)-len(suffix):] == suffix]. *)
Definition HasSuffix (s suffix : string) : bool :=
  (String.length suffix <=? String.length s)%nat
  && bool_decide
       (String.substring (String.length s - String.length suffix)
          (String.length suffix) s = suffix).

(** [strings.TrimSuffix(s, suffix)]. *)
Definition TrimSuffix (s suffix : string) : string :=
  if HasSuffix s suffix
  then String.substring 0 (String.length s - String.length suffix) s
  else s.

(** [filepath.Join(dir, name)] for a clean directory and a plain file name. *)
Definition Join (dir name : string) : string := dir +:+ "/" +:+ name.

(** [fmt.Sprintf("%d", n)]. *)
Definition fmt_d (n : Z) : string := pretty n.

Global Instance byte_eq_dec : EqDecision Byte.byte := Byte.byte_eq_dec.

(** Lower-case hexadecimal, two digits per byte ([hex.EncodeToString]). *)
Definition hexdigit (n : N) : string :=
  String.substring (N.to_nat n) 1 "0123456789abcdef".

Definition hex_of_byte (b : Byte.byte) : string :=
  hexdigit (Byte.to_N b / 16)%N +:+ hexdigit (Byte.to_N b mod 16)%N.

(** [hexutil.Encode(b)]. *)
Definition hexutil_Encode (b : list Byte.byte) : string :=
  "0x" +:+ foldr (λ x acc, hex_of_byte x +:+ acc) "" b.

(** [common.Hash]: 32 bytes. *)
Definition HashLength : nat := 32.

(** [common.BytesToHash(b)]: a longer [b] is cropped from the left, a
    shorter one is padded with zero bytes on the left. *)
Definition BytesToHash (b : list Byte.byte) : list Byte.byte :=
  let b := drop (length b - HashLength) b in
  replicate (HashLength - length b) Byte.x00 ++ b.

(** [big.Int.Uint64()]: the low 64 bits of the absolute value. *)
Definition big_Uint64 (x : Z) : Z := uint64 (Z.abs x).

(** ** Go's [time] *)

(** [time.Duration]: an [int64] count of nanoseconds. *)
Definition Duration : Type := Z.
Definition Second : Duration := 1000000000.
Definition minDuration : Duration := - 2 ^ 63.
Definition maxDuration : Duration := 2 ^ 63 - 1.

(** Seconds from January 1 of year 1 to January 1, 1970. *)
Definition unixToInternal : Z := 62135596800.

(** [time.Time] without a monotonic reading: seconds since January 1 of
    year 1 (an [int64]) and nanoseconds within the second. *)
Record Time : Type := mkTime {
  ext : Z;
  nsec : Z;
}.

Global Instance Time_eq_dec : EqDecision Time.
Proof. solve_decision. Defined.

(** [time.Unix(sec, 0)]. *)
Definition time_Unix (sec : Z) : Time :=
  {| ext := int64 (sec + unixToInternal); nsec := 0 |}.

(** [t.Unix()]: seconds since January 1, 1970. *)
Definition Time_Unix (t : Time) : Z := int64 (ext t - unixToInternal).

(** [t.addSec(d)]: the sum saturates. *)
Definition addSec (t : Time) (d : Z) : Time :=
  let sum := int64 (ext t + d) in
  if bool_decide ((sum > ext t) ↔ (d > 0)) then {| ext := sum; nsec := nsec t |}
  else if d >? 0 then {| ext := 2 ^ 63 - 1; nsec := nsec t |}
  else {| ext := - (2 ^ 63 - 1); nsec := nsec t |}.

(** [t.Add(d)]. Go's [/] and [%] truncate towards zero. *)
Definition Time_Add (t : Time) (d : Duration) : Time :=
  let dsec := Z.quot d 1000000000 in
  let n := nsec t + Z.rem d 1000000000 in
  if n >=? 1000000000 then addSec {| ext := ext t; nsec := n - 1000000000 |} (dsec + 1)
  else if n <? 0 then addSec {| ext := ext t; nsec := n + 1000000000 |} (dsec - 1)
  else addSec {| ext := ext t; nsec := n |} dsec.

(** [t.Before(u)]. *)
Definition Time_Before (t u : Time) : bool :=
  (ext t <? ext u) || ((ext t =? ext u) && (nsec t <? nsec u)).

(** [t.Sub(u)]: the difference, saturating at the ends of [Duration]. *)
Definition Time_Sub (t u : Time) : Duration :=
  let d := int64 (int64 (int64 (ext t - ext u) * Second) + (nsec t - nsec u)) in
  if bool_decide (Time_Add u d = t) then d
  else if Time_Before t u then minDuration
  else maxDuration.

(** ** The filesystem and the task's state *)

(** [os.FileInfo], as far as [run] and [purge] read it. *)
Record FileInfo : Type := mkFileInfo {
  Name : string;
  IsDir : bool;
}.

(** A call of the process into the filesystem. *)
Inductive Syscall : Type :=
| SysReadDir (dir : string)
| SysRemove (path : string)
| SysWriteFile (path data : string) (perm : Z)
| SysRename (oldpath newpath : string).

(** The part of the machine outside the process that the task acts on.
    Failures of the operating system are part of it: which calls fail is
    decided by the world and not by the program. *)
Record World : Type := mkWorld {
  (** [Some e] when [ioutil.ReadDir] of the watchtower folder fails with [e] *)
  readDirError : option error;
  (** the entries of the watchtower folder, in the order [ioutil.ReadDir]
      returns them (sorted by file name) *)
  requests : list FileInfo;
  (** the paths [os.Remove] refuses, each with its error *)
  removeError : gmap string error;
  (** the paths [ioutil.WriteFile] refuses, each with its error *)
  writeError : gmap string error;
  (** for a path [ioutil.WriteFile] refuses: no entry when the file cannot
      be opened, so that it stays as it was; [n] when the call fails after
      [os.OpenFile] has created or truncated the file, with the first [n]
      bytes of the data in it *)
  partialWrite : gmap string nat;
  (** the regular files written so far: path to content *)
  disk : gmap string string;
  (** the filesystem calls made so far, oldest first *)
  journal : list Syscall;
}.

Definition record (c : Syscall) (w : World) : World :=
  {| readDirError := readDirError w; requests := requests w;
     removeError := removeError w; writeError := writeError w;
     partialWrite := partialWrite w;
     disk := disk w; journal := journal w ++ [c] |}.

(** [ioutil.ReadDir(dir)] of the watchtower folder. *)
Definition ReadDir (dir : string) (w : World)
  : result (list FileInfo) * World :=
  (match readDirError w with
   | Some e => Err e
   | None => Ok (requests w)
   end,
   record (SysReadDir dir) w).

(** [os.Remove(path)] for a path below the watchtower folder [dir]: the
    entry of that path leaves the folder, unless the world refuses. *)
Definition Remove (dir path : string) (w : World) : option error * World :=
  match removeError w !! path with
  | Some e => (Some e, record (SysRemove path) w)
  | None =>
      (None,
       record (SysRemove path)
         {| readDirError := readDirError w;
            requests := filter (λ f, Join dir (Name f) ≠ path) (requests w);
            removeError := removeError w;
            writeError := writeError w;
            partialWrite := partialWrite w;
            disk := disk w;
            journal := journal w |})
  end.

(** The world in which the regular file [path] holds [content]. *)
Definition store (path content : string) (w : World) : World :=
  {| readDirError := readDirError w;
     requests := requests w;
     removeError := removeError w;
     writeError := writeError w;
     partialWrite := partialWrite w;
     disk := <[path := content]> (disk w);
     journal := journal w |}.

(** [ioutil.WriteFile(path, data, perm)], which is
    [os.OpenFile(path, O_WRONLY|O_CREATE|O_TRUNC, perm)], [f.Write(data)]
    and [f.Close()]: the file holds [data] afterwards, unless the world
    refuses. When the open is refused the file is as it was; when the call
    fails after the open, the file has been created or truncated and holds
    the bytes of [data] that were written before the failure. *)
Definition WriteFile (path data : string) (perm : Z) (w : World)
  : option error * World :=
  match writeError w !! path with
  | Some e =>
      (Some e,
       record (SysWriteFile path data perm)
         match partialWrite w !! path with
         | None => w
         | Some n => store path (String.substring 0 n data) w
         end)
  | None => (None, record (SysWriteFile path data perm) (store path data w))
  end.

(** What the task reads from its configuration and from [strconv]. *)
Record Config : Type := mkConfig {
  (** [t.cfg.Smartnode.GetWatchtowerFolder(true)] *)
  GetWatchtowerFolder : string;
  (** [config.RegenerateRewardsTreeRequestSuffix] *)
  RegenerateRewardsTreeRequestSuffix : string;
  (** [strconv.ParseUint(s, 0, 64)] *)
  ParseUint : string → result Z;
  (** [t.cfg.Smartnode.GetRewardsTreePath(index, true)] *)
  GetRewardsTreePath : Z → string;
}.

(** The task [t *generateRewardsTree] with what it acts on: the flag
    [t.isRunning], the lines printed on [t.log] and [t.errLog] (oldest
    first), the world, and the goroutines started with
    [go t.generateRewardsTree(index)], by index, oldest first. *)
Record State : Type := mkState {
  isRunning : bool;
  log : list string;
  errLog : list string;
  world : World;
  started : list Z;
}.

Definition set_isRunning (b : bool) (t : State) : State :=
  {| isRunning := b; log := log t; errLog := errLog t;
     world := world t; started := started t |}.

Definition set_world (w : World) (t : State) : State :=
  {| isRunning := isRunning t; log := log t; errLog := errLog t;
     world := w; started := started t |}.

(** [t.log.Println(line)] and [t.log.Printlnf(...)]. *)
Definition log_Println (line : string) (t : State) : State :=
  {| isRunning := isRunning t; log := log t ++ [line]; errLog := errLog t;
     world := world t; started := started t |}.

(** [t.errLog.Println(line)]. *)
Definition errLog_Println (line : string) (t : State) : State :=
  {| isRunning := isRunning t; log := log t; errLog := errLog t ++ [line];
     world := world t; started := started t |}.

(** [go t.generateRewardsTree(index)]. *)
Definition go_generateRewardsTree (index : Z) (t : State) : State :=
  {| isRunning := isRunning t; log := log t; errLog := errLog t;
     world := world t; started := started t ++ [index] |}.

(** ** [generateRewardsTree.run]: checking for generation requests *)

(** The three ways the loop over the directory entries is left. *)
Inductive scan : Type :=
| ScanError (err : error)     (* [return fmt.Errorf(...)] inside the loop *)
| ScanRequest (index : Z)     (* the request file is removed; generation follows *)
| ScanNothing.                (* the loop ran to its end *)

(** The test of the loop body:
    [strings.HasSuffix(filename, suffix) && !file.IsDir()]. *)
Definition isRequest (cfg : Config) (file : FileInfo) : bool :=
  HasSuffix (Name file) (RegenerateRewardsTreeRequestSuffix cfg)
  && negb (IsDir file).

(** [for _, file := range files { ... }] up to the removal of the request
    file: the first entry that is a request decides. *)
Fixpoint scanRequests (cfg : Config) (files : list FileInfo) (w : World)
  : scan * World :=
  match files with
  | [] => (ScanNothing, w)
  | file :: files' =>
      let filename := Name file in
      if isRequest cfg file then
        (* Get the index *)
        let indexString :=
          TrimSuffix filename (RegenerateRewardsTreeRequestSuffix cfg) in
        match ParseUint cfg indexString with
        | Err err =>
            (ScanError ("Error parsing index from [" +:+ filename +:+ "]: " +:+ err), w)
        | Ok index =>
            (* Delete the file *)
            let path := Join (GetWatchtowerFolder cfg) filename in
            match Remove (GetWatchtowerFolder cfg) path w with
            | (Some err, w') =>
                (ScanError ("Error removing request file [" +:+ path +:+ "]: " +:+ err), w')
            | (None, w') => (ScanRequest index, w')
            end
        end
      else scanRequests cfg files' w
  end.

(** [func (t *generateRewardsTree) run() error], called while no other
    goroutine holds [t.lock]: taking and releasing the lock leaves no trace.
    The result is the returned error ([None] for [nil]). *)
Definition run (cfg : Config) (t : State) : option error * State :=
  let t := log_Println "Checking for manual rewards tree generation requests..." t in
  (* Check if rewards generation is already running *)
  if isRunning t then
    (None, log_Println "Tree generation is already running." t)
  else
    (* Check for requests *)
    let requestDir := GetWatchtowerFolder cfg in
    match ReadDir requestDir (world t) with
    | (Err err, w) =>
        (Some ("Error enumerating files in watchtower storage directory: " +:+ err),
         set_world w t)
    | (Ok files, w) =>
        match scanRequests cfg files w with
        | (ScanError err, w') => (Some err, set_world w' t)
        | (ScanRequest index, w') =>
            (* Generate the rewards tree *)
            (None, go_generateRewardsTree index (set_isRunning true (set_world w' t)))
        | (ScanNothing, w') => (None, set_world w' t)
        end
    end.

(** ** [generateRewardsTree.generateRewardsTree]: the generation itself *)

(** [rewards.RewardsEvent], as far as the task reads it. *)
Record RewardsEvent : Type := mkRewardsEvent {
  Block : Z;                        (* [*big.Int] *)
  IntervalStartTime : Time;
  IntervalEndTime : Time;
  MerkleRoot : list Byte.byte;      (* [common.Hash] *)
}.

(** [beacon.Eth2Config], as far as the task reads it: two [uint64]. *)
Record Eth2Config : Type := mkEth2Config {
  GenesisTime : Z;
  SecondsPerSlot : Z;
}.

(** [types.Header]: only [Number] is read. *)
Record Header : Type := mkHeader {
  Number : Z;
}.

(** The calls the generation makes outside this file. The reward maps, the
    Merkle tree and the proof wrapper are values of packages that the task
    only hands on, so their types are left open. [invalid] lists the
    entries of [invalidNodeNetworks] (address as [Hex()], network) in the
    order the [range] loop meets them. *)
Record Services (NodeRewards NetworkRewards Tree Wrapper : Type) : Type :=
  mkServices {
  (** [t.cfg.GetEventLogInterval()] *)
  GetEventLogInterval : result Z;
  (** [rewards.GetRewardSnapshotEvent(t.rp, index, intervalSize, nil)] *)
  GetRewardSnapshotEvent : Z → Z → result RewardsEvent;
  (** [t.bc.GetEth2Config()] *)
  GetEth2Config : result Eth2Config;
  (** [rprewards.GetELBlockHeaderForTime(blockTime, t.ec)] *)
  GetELBlockHeaderForTime : Time → result Header;
  (** [rprewards.CalculateRplRewards(t.rp, elBlockHeader, intervalTime)] *)
  CalculateRplRewards :
    Header → Duration → result (NodeRewards * NetworkRewards * list (string * Z));
  (** [rprewards.GenerateMerkleTree(nodeRewardsMap)] *)
  GenerateMerkleTree : NodeRewards → result Tree;
  (** [tree.Root()] *)
  Root : Tree → list Byte.byte;
  (** [rprewards.GenerateTreeJson(root, nodeRewardsMap, networkRewardsMap)] *)
  GenerateTreeJson : list Byte.byte → NodeRewards → NetworkRewards → Wrapper;
  (** [json.Marshal(proofWrapper)] *)
  json_Marshal : Wrapper → result string;
  (** [blockTime.String()], as [%s] prints a [time.Time] *)
  Time_String : Time → string;
  (** [time.Since(start).String()] after the reward calculation and after
      the tree generation *)
  calculationTook : string;
  treeTook : string;
}.
Arguments GetEventLogInterval {_ _ _ _} _.
Arguments GetRewardSnapshotEvent {_ _ _ _} _ _ _.
Arguments GetEth2Config {_ _ _ _} _.
Arguments GetELBlockHeaderForTime {_ _ _ _} _ _.
Arguments CalculateRplRewards {_ _ _ _} _ _ _.
Arguments GenerateMerkleTree {_ _ _ _} _ _.
Arguments Root {_ _ _ _} _ _.
Arguments GenerateTreeJson {_ _ _ _} _ _ _ _.
Arguments json_Marshal {_ _ _ _} _ _.
Arguments Time_String {_ _ _ _} _ _.
Arguments calculationTook {_ _ _ _} _.
Arguments treeTook {_ _ _ _} _.

(** [func (t *generateRewardsTree) handleError(err error)]. *)
Definition handleError (err : error) (t : State) : State :=
  let t := errLog_Println err t in
  let t := errLog_Println "*** Rewards tree generation failed. ***" t in
  set_isRunning false t.

(** The time of the snapshot's consensus block:
    [genesisTime := time.Unix(int64(eth2Config.GenesisTime), 0)] and
    [genesisTime.Add(time.Duration(rewardsEvent.Block.Uint64()*eth2Config.SecondsPerSlot) * time.Second)]. *)
Definition blockTimeOf (rewardsEvent : RewardsEvent) (eth2Config : Eth2Config)
  : Time :=
  let genesisTime := time_Unix (int64 (GenesisTime eth2Config)) in
  Time_Add genesisTime
    (int64
       (int64 (uint64 (big_Uint64 (Block rewardsEvent) * SecondsPerSlot eth2Config))
        * Second)).

(** The lines of the loop over [invalidNodeNetworks]. *)
Definition invalidNetworkWarnings (generationPrefix : string)
    (invalid : list (string * Z)) : list string :=
  (λ '(address, network),
     generationPrefix +:+ " WARNING: Node " +:+ address
     +:+ " has invalid network " +:+ fmt_d network +:+ " assigned!"
     +:+ String (Ascii.ascii_of_nat 10) EmptyString) <$> invalid.

(** [fmt.Sprintf("[Interval %d Tree]", index)]. *)
Definition intervalPrefix (index : Z) : string :=
  "[Interval " +:+ fmt_d index +:+ " Tree]".

(** A line that begins with the prefix of the interval [index]. *)
Definition ofInterval (index : Z) (line : string) : Prop :=
  ∃ rest, line = intervalPrefix index +:+ rest.

(** The line printed when the local root differs from the canonical one:
    ["%s WARNING: your Merkle tree had a root of %s, but the canonical Merkle tree's root was %s. This file will not be usable for claiming rewards."]
    with [generationPrefix], [root.Hex()] and [rewardsEvent.MerkleRoot.Hex()]. *)
Definition rootMismatchWarning (generationPrefix : string)
    (root canonical : list Byte.byte) : string :=
  generationPrefix +:+ " WARNING: your Merkle tree had a root of "
  +:+ hexutil_Encode root +:+ ", but the canonical Merkle tree's root was "
  +:+ hexutil_Encode canonical
  +:+ ". This file will not be usable for claiming rewards.".

(** The line printed when the roots are equal:
    ["%s Your Merkle tree's root of %s matches the canonical root! You will be able to use this file for claiming rewards."]
    with [generationPrefix] and [hexutil.Encode(tree.Root())]. *)
Definition rootMatchNotice (generationPrefix : string)
    (treeRoot : list Byte.byte) : string :=
  generationPrefix +:+ " Your Merkle tree's root of " +:+ hexutil_Encode treeRoot
  +:+ " matches the canonical root! You will be able to use this file for claiming rewards.".

Section generation.
Context {NodeRewards NetworkRewards Tree Wrapper : Type}.
Variable cfg : Config.
Variable svc : Services NodeRewards NetworkRewards Tree Wrapper.

(** [func (t *generateRewardsTree) generateRewardsTree(index uint64)],
    run from its first statement to its return. *)
Definition generateRewardsTree (index : Z) (t : State) : State :=
  (* Begin generation of the tree *)
  let generationPrefix := intervalPrefix index in
  let t := log_Println (generationPrefix +:+ " Starting generation of Merkle rewards tree for interval " +:+ fmt_d index +:+ ".") t in
  (* Get the event log interval *)
  match GetEventLogInterval svc with
  | Err err => handleError (generationPrefix +:+ " Error getting event log interval: " +:+ err) t
  | Ok eventLogInterval =>
  (* Find the event for this interval *)
  match GetRewardSnapshotEvent svc index (int64 eventLogInterval) with
  | Err err => handleError (generationPrefix +:+ " Error getting event for interval " +:+ fmt_d index +:+ ": " +:+ err) t
  | Ok rewardsEvent =>
  let t := log_Println (generationPrefix +:+ " Found snapshot event: consensus block " +:+ fmt_d (Block rewardsEvent)) t in
  (* Figure out the timestamp for the block *)
  match GetEth2Config svc with
  | Err err => handleError (generationPrefix +:+ " Error getting Beacon config: " +:+ err) t
  | Ok eth2Config =>
  let blockTime := blockTimeOf rewardsEvent eth2Config in
  let t := log_Println (generationPrefix +:+ " Block time is " +:+ Time_String svc blockTime) t in
  (* Get the matching EL block *)
  match GetELBlockHeaderForTime svc blockTime with
  | Err err => handleError (generationPrefix +:+ " Error getting matching EL block: " +:+ err) t
  | Ok elBlockHeader =>
  let t := log_Println (generationPrefix +:+ " Found matching EL block: " +:+ fmt_d (Number elBlockHeader)) t in
  (* Get the interval time *)
  let intervalTime := Time_Sub (IntervalEndTime rewardsEvent) (IntervalStartTime rewardsEvent) in
  (* Get the total pending rewards and respective distribution percentages *)
  let t := log_Println (generationPrefix +:+ " Calculating RPL rewards...") t in
  match CalculateRplRewards svc elBlockHeader intervalTime with
  | Err err => handleError (generationPrefix +:+ " Error calculating node operator rewards: " +:+ err) t
  | Ok (nodeRewardsMap, networkRewardsMap, invalidNodeNetworks) =>
  let t := foldl (λ t line, log_Println line t) t
             (invalidNetworkWarnings generationPrefix invalidNodeNetworks) in
  let t := log_Println (generationPrefix +:+ " Finished in " +:+ calculationTook svc) t in
  (* Generate the Merkle tree *)
  let t := log_Println (generationPrefix +:+ " Generating Merkle tree...") t in
  match GenerateMerkleTree svc nodeRewardsMap with
  | Err err => handleError (generationPrefix +:+ " Error generating Merkle tree: " +:+ err) t
  | Ok tree =>
  let t := log_Println (generationPrefix +:+ " Finished in " +:+ treeTook svc) t in
  (* Validate the Merkle root *)
  let root := BytesToHash (Root svc tree) in
  let t :=
    if bool_decide (root ≠ MerkleRoot rewardsEvent) then
      log_Println (rootMismatchWarning generationPrefix root (MerkleRoot rewardsEvent)) t
    else
      log_Println (rootMatchNotice generationPrefix (Root svc tree)) t in
  (* Create the JSON proof wrapper and encode it *)
  let t := log_Println (generationPrefix +:+ " Saving JSON file...") t in
  let proofWrapper := GenerateTreeJson svc (Root svc tree) nodeRewardsMap networkRewardsMap in
  match json_Marshal svc proofWrapper with
  | Err err => handleError (generationPrefix +:+ " Error serializing proof wrapper into JSON: " +:+ err) t
  | Ok wrapperBytes =>
  (* Write the file *)
  let path := GetRewardsTreePath cfg index in
  match WriteFile path wrapperBytes 420 (world t) with
  | (Some err, w) => handleError (generationPrefix +:+ " Error saving file to " +:+ path +:+ ": " +:+ err) (set_world w t)
  | (None, w) =>
  let t := set_world w t in
  let t := log_Println (generationPrefix +:+ " Merkle tree generation complete!") t in
  set_isRunning false t
  end end end end end end end end.

End generation.

(** ** The task under concurrency: calls of [run] and generations as threads

    [run] and [generateRewardsTree] share [t.isRunning] under [t.lock].
    Each call is a thread with a program point; a step of the system is a
    step of one thread between two points where it touches the lock, the
    flag, the filesystem or the thread pool. *)

(** Where a call of [run] stands. *)
Inductive run_pc : Type :=
| RunEntry                            (* before the first [t.lock.Lock()] *)
| RunLocked                           (* holds the lock, before [if t.isRunning] *)
| RunScanning                         (* lock released, before [ioutil.ReadDir] *)
| RunListed (files : list FileInfo)   (* before the loop over [files] *)
| RunFound (index : Z)                (* request removed, before the second [t.lock.Lock()] *)
| RunSetting (index : Z)              (* holds the lock, before [t.isRunning = true] *)
| RunUnlocking (index : Z)            (* holds the lock, before [t.lock.Unlock()] *)
| RunSpawning (index : Z)             (* before [go t.generateRewardsTree(index)] *)
| RunReturned (err : option error).

(** Where a call of [generateRewardsTree] stands. Both its last statements
    and [handleError] end with [Lock(); t.isRunning = false; Unlock()]. *)
Inductive gen_pc : Type :=
| GenWorking       (* between its first statement and the final [t.lock.Lock()] *)
| GenResetting     (* before the final [t.lock.Lock()] *)
| GenLocked        (* holds the lock, before [t.isRunning = false] *)
| GenUnlocking     (* holds the lock, before [t.lock.Unlock()] *)
| GenReturned.

Inductive thread : Type :=
| RunCall (pc : run_pc)
| Generation (index : Z) (pc : gen_pc).

(** The process: the task's state, whether [t.lock] is held, the threads. *)
Record System : Type := mkSystem {
  shared : State;
  locked : bool;
  threads : list thread;
}.

(** A generation in flight: started and not yet returned. *)
Definition inFlight (th : thread) : nat :=
  match th with
  | Generation _ GenReturned => 0
  | Generation _ _ => 1
  | RunCall _ => 0
  end%nat.

(** A call of [run] that has not returned. *)
Definition running (th : thread) : nat :=
  match th with
  | RunCall (RunReturned _) => 0
  | RunCall _ => 1
  | Generation _ _ => 0
  end%nat.

Definition generationsInFlight (s : System) : nat :=
  sum_list_with inFlight (threads s).

Definition runsInProgress (s : System) : nat :=
  sum_list_with running (threads s).

(** What a step of a generation between its first statement and its final
    lock may change: the logs and the world, never the flag. *)
Definition sameFlag (t t' : State) : Prop :=
  isRunning t' = isRunning t ∧ started t' = started t.

(** One step of the process. With [single], [run] has a single caller that
    waits for each call to return before it calls again (the watchtower's
    polling loop); without, any number of calls may overlap. *)
Inductive step (single : bool) (cfg : Config) : System → System → Prop :=
(* a new call of [run] *)
| step_call s :
    (single = true → runsInProgress s = 0%nat) →
    step single cfg s
      {| shared := shared s; locked := locked s;
         threads := threads s ++ [RunCall RunEntry] |}
(* [t.log.Println("Checking ..."); t.lock.Lock()] *)
| step_run_lock s pre post :
    threads s = pre ++ RunCall RunEntry :: post →
    locked s = false →
    step single cfg s
      {| shared := log_Println "Checking for manual rewards tree generation requests..." (shared s);
         locked := true;
         threads := pre ++ RunCall RunLocked :: post |}
(* [if t.isRunning { Println; Unlock; return nil }] *)
| step_run_busy s pre post :
    threads s = pre ++ RunCall RunLocked :: post →
    isRunning (shared s) = true →
    step single cfg s
      {| shared := log_Println "Tree generation is already running." (shared s);
         locked := false;
         threads := pre ++ RunCall (RunReturned None) :: post |}
(* [t.lock.Unlock()] after the test found the flag down *)
| step_run_pass s pre post :
    threads s = pre ++ RunCall RunLocked :: post →
    isRunning (shared s) = false →
    step single cfg s
      {| shared := shared s; locked := false;
         threads := pre ++ RunCall RunScanning :: post |}
(* [files, err := ioutil.ReadDir(requestDir)] fails *)
| step_run_readdir_err s pre post err w :
    threads s = pre ++ RunCall RunScanning :: post →
    ReadDir (GetWatchtowerFolder cfg) (world (shared s)) = (Err err, w) →
    step single cfg s
      {| shared := set_world w (shared s); locked := locked s;
         threads :=
           pre ++ RunCall (RunReturned (Some ("Error enumerating files in watchtower storage directory: " +:+ err))) :: post |}
(* [files, err := ioutil.ReadDir(requestDir)] succeeds *)
| step_run_readdir s pre post files w :
    threads s = pre ++ RunCall RunScanning :: post →
    ReadDir (GetWatchtowerFolder cfg) (world (shared s)) = (Ok files, w) →
    step single cfg s
      {| shared := set_world w (shared s); locked := locked s;
         threads := pre ++ RunCall (RunListed files) :: post |}
(* the loop, left by an error *)
| step_run_scan_err s pre post files err w :
    threads s = pre ++ RunCall (RunListed files) :: post →
    scanRequests cfg files (world (shared s)) = (ScanError err, w) →
    step single cfg s
      {| shared := set_world w (shared s); locked := locked s;
         threads := pre ++ RunCall (RunReturned (Some err)) :: post |}
(* the loop, run to its end *)
| step_run_scan_nothing s pre post files w :
    threads s = pre ++ RunCall (RunListed files) :: post →
    scanRequests cfg files (world (shared s)) = (ScanNothing, w) →
    step single cfg s
      {| shared := set_world w (shared s); locked := locked s;
         threads := pre ++ RunCall (RunReturned None) :: post |}
(* the loop, up to the removal of the first request *)
| step_run_scan_request s pre post files index w :
    threads s = pre ++ RunCall (RunListed files) :: post →
    scanRequests cfg files (world (shared s)) = (ScanRequest index, w) →
    step single cfg s
      {| shared := set_world w (shared s); locked := locked s;
         threads := pre ++ RunCall (RunFound index) :: post |}
(* the second [t.lock.Lock()] *)
| step_run_relock s pre post index :
    threads s = pre ++ RunCall (RunFound index) :: post →
    locked s = false →
    step single cfg s
      {| shared := shared s; locked := true;
         threads := pre ++ RunCall (RunSetting index) :: post |}
(* [t.isRunning = true] *)
| step_run_set s pre post index :
    threads s = pre ++ RunCall (RunSetting index) :: post →
    step single cfg s
      {| shared := set_isRunning true (shared s); locked := locked s;
         threads := pre ++ RunCall (RunUnlocking index) :: post |}
(* [t.lock.Unlock()] *)
| step_run_unlock s pre post index :
    threads s = pre ++ RunCall (RunUnlocking index) :: post →
    step single cfg s
      {| shared := shared s; locked := false;
         threads := pre ++ RunCall (RunSpawning index) :: post |}
(* [go t.generateRewardsTree(index); return nil] *)
| step_run_go s pre post index :
    threads s = pre ++ RunCall (RunSpawning index) :: post →
    step single cfg s
      {| shared := go_generateRewardsTree index (shared s); locked := locked s;
         threads :=
           pre ++ RunCall (RunReturned None) :: post ++ [Generation index GenWorking] |}
(* the generation works: logs and files change, the flag does not *)
| step_gen_work s pre post index t' :
    threads s = pre ++ Generation index GenWorking :: post →
    sameFlag (shared s) t' →
    step single cfg s
      {| shared := t'; locked := locked s;
         threads := pre ++ Generation index GenWorking :: post |}
(* the generation reaches its end, or [handleError] *)
| step_gen_finish s pre post index :
    threads s = pre ++ Generation index GenWorking :: post →
    step single cfg s
      {| shared := shared s; locked := locked s;
         threads := pre ++ Generation index GenResetting :: post |}
(* [t.lock.Lock()] *)
| step_gen_lock s pre post index :
    threads s = pre ++ Generation index GenResetting :: post →
    locked s = false →
    step single cfg s
      {| shared := shared s; locked := true;
         threads := pre ++ Generation index GenLocked :: post |}
(* [t.isRunning = false] *)
| step_gen_reset s pre post index :
    threads s = pre ++ Generation index GenLocked :: post →
    step single cfg s
      {| shared := set_isRunning false (shared s); locked := locked s;
         threads := pre ++ Generation index GenUnlocking :: post |}
(* [t.lock.Unlock()] and the return *)
| step_gen_unlock s pre post index :
    threads s = pre ++ Generation index GenUnlocking :: post →
    step single cfg s
      {| shared := shared s; locked := false;
         threads := pre ++ Generation index GenReturned :: post |}
(* the world outside the process changes: requests appear, files change *)
| step_world s w :
    step single cfg s
      {| shared := set_world w (shared s); locked := locked s;
         threads := threads s |}.

(** The process at its start: the flag down, the lock free, no thread. *)
Definition boot (w : World) : System :=
  {| shared := {| isRunning := false; log := []; errLog := []; world := w; started := [] |};
     locked := false;
     threads := [] |}.

(** At most one generation is ever in flight, from the start of the
    process with the world [w]. *)
Definition singleFlight (single : bool) (cfg : Config) (w : World) : Prop :=
  ∀ s, rtc (step single cfg) (boot w) s → (generationsInFlight s ≤ 1)%nat.

(** The bookkeeping of the invariant. A thread holds the lock between a
    [Lock()] and the [Unlock()] after it. *)
Definition holdsLock (th : thread) : nat :=
  match th with
  | RunCall RunLocked | RunCall (RunSetting _) | RunCall (RunUnlocking _)
  | Generation _ GenLocked | Generation _ GenUnlocking => 1
  | _ => 0
  end%nat.

(** A thread owns the generation slot from the moment a call of [run] has
    seen the flag down until the generation it starts has returned. *)
Definition ownsSlot (th : thread) : nat :=
  match th with
  | RunCall RunScanning | RunCall (RunListed _) | RunCall (RunFound _)
  | RunCall (RunSetting _) | RunCall (RunUnlocking _) | RunCall (RunSpawning _) => 1
  | Generation _ GenReturned => 0
  | Generation _ _ => 1
  | _ => 0
  end%nat.

(** A thread that is there only while the flag is up. *)
Definition needsFlag (th : thread) : nat :=
  match th with
  | RunCall (RunUnlocking _) | RunCall (RunSpawning _) => 1
  | Generation _ GenWorking | Generation _ GenResetting | Generation _ GenLocked => 1
  | _ => 0
  end%nat.

(** A thread that has returned. *)
Definition returned (th : thread) : bool :=
  match th with
  | RunCall (RunReturned _) | Generation _ GenReturned => true
  | _ => false
  end.

(** The invariant of the process when [run] has a single caller. *)
Definition singleDriverInv (s : System) : Prop :=
  (runsInProgress s ≤ 1)%nat
  ∧ sum_list_with holdsLock (threads s) = (if locked s then 1 else 0)%nat
  ∧ (sum_list_with ownsSlot (threads s) ≤ 1)%nat
  ∧ (isRunning (shared s) = false → sum_list_with needsFlag (threads s) = 0%nat).

(** ** [purge] (package [wallet]) *)

Module wallet.

(** What [os.Stat(customKeyDir)] returns: an error that
    [os.IsNotExist] recognises, another error (with a [nil] info), or the
    info of the path. *)
Inductive StatResult : Type :=
| StatNotExist (err : error)
| StatOtherError (err : error)
| StatInfo (info : FileInfo).

(** What [purge] does to the wallet, the password, the disk and the
    validator client, in the order it does it. *)
Inductive Action : Type :=
| DeleteValidatorKey (pubkey : string)   (* [w.DeleteValidatorKey(pubkey)] *)
| RemoveAll (path : string)              (* [os.RemoveAll(customKeyPath)] *)
| DeleteWallet                           (* [w.Delete()] *)
| DeletePassword                         (* [pm.DeletePassword()] *)
| RestartValidator.                      (* [validator.RestartValidator(cfg, bc, nil, d)] *)

(** How a call ends: it returns [(response, err)], or it panics. The
    response is the empty [api.PurgeResponse{}]. *)
Inductive outcome : Type :=
| Return (r : result unit)
| Panic.

(** What [purge] calls: the services, the node's minipools, the disk.
    A service that fails gives [Some err]; public keys are given by their
    [Hex()]. *)
Record Env : Type := mkEnv {
  GetConfig : option error;
  GetRocketPool : option error;
  GetWallet : option error;
  GetPasswordManager : option error;
  GetNodeAccount : option error;
  GetBeaconClient : option error;
  GetDocker : option error;
  GetNodeValidatingMinipoolPubkeys : result (list string);
  GetCustomKeyPath : string;
  Stat : StatResult;
  ReadDir : result (list FileInfo);
  ReadFile : string → result string;
  (** [json.Unmarshal(bytes, &keystore)], then [keystore.Pubkey.Hex()] *)
  Unmarshal : string → result string;
  RemoveAllError : string → option error;
  DeleteError : option error;
  DeletePasswordError : option error;
  RestartValidatorError : option error;
}.

(** [for _, pubkey := range pubkeys { pubkeyMap[pubkey.Hex()] = true; w.DeleteValidatorKey(pubkey) }] *)
Definition deleteValidatorKeys (pubkeys : list string)
  : gmap string bool * list Action :=
  foldl (λ '(pubkeyMap, done) pubkey,
           (<[pubkey := true]> pubkeyMap, done ++ [DeleteValidatorKey pubkey]))
        (∅, []) pubkeys.

(** [for _, file := range files { ... }]: process every custom key found.
    [None] when the loop runs to its end, the returned error otherwise. *)
Fixpoint removeCustomKeys (env : Env) (pubkeyMap : gmap string bool)
    (files : list FileInfo) (done : list Action) : option error * list Action :=
  match files with
  | [] => (None, done)
  | file :: files' =>
      (* Read the file *)
      match ReadFile env (Join (GetCustomKeyPath env) (Name file)) with
      | Err err => (Some ("error reading custom keystore " +:+ Name file +:+ ": " +:+ err), done)
      | Ok bytes =>
          (* Deserialize it *)
          match Unmarshal env bytes with
          | Err err => (Some ("error deserializing custom keystore " +:+ Name file +:+ ": " +:+ err), done)
          | Ok pubkey =>
              (* Check if it's one of the pubkeys for the minipool *)
              match pubkeyMap !! pubkey with
              | None => removeCustomKeys env pubkeyMap files' done
              | Some _ =>
                  let customKeyPath := Join (GetCustomKeyPath env) (Name file) in
                  let done := done ++ [RemoveAll customKeyPath] in
                  match RemoveAllError env customKeyPath with
                  | Some err => (Some ("error removing file " +:+ Name file +:+ ": " +:+ err), done)
                  | None => removeCustomKeys env pubkeyMap files' done
                  end
              end
          end
      end
  end.

(** [func purge(c *cli.Context)], returning [( *api.PurgeResponse, error)]. *)
Definition purge (env : Env) : outcome * list Action :=
  match GetConfig env with Some err => (Return (Err err), []) | None =>
  match GetRocketPool env with Some err => (Return (Err err), []) | None =>
  match GetWallet env with Some err => (Return (Err err), []) | None =>
  match GetPasswordManager env with Some err => (Return (Err err), []) | None =>
  (* Get node account *)
  match GetNodeAccount env with Some err => (Return (Err err), []) | None =>
  match GetBeaconClient env with Some err => (Return (Err err), []) | None =>
  match GetDocker env with Some err => (Return (Err err), []) | None =>
  (* Get the node's validating pubkeys *)
  match GetNodeValidatingMinipoolPubkeys env with
  | Err err => (Return (Err err), [])
  | Ok pubkeys =>
  let '(pubkeyMap, done) := deleteValidatorKeys pubkeys in
  (* Load custom validator keys *)
  match Stat env with
  | StatNotExist _ =>
      (* There are no custom keys, so exit early *)
      (Return (Ok ()), done)
  | StatOtherError _ =>
      (* [info] is nil: [info.IsDir()] dereferences it *)
      (Panic, done)
  | StatInfo info =>
  if negb (IsDir info) then (Return (Ok ()), done) else
  (* Get the custom keystore files *)
  match ReadDir env with
  | Err err => (Return (Err ("error enumerating custom keystores: " +:+ err)), done)
  | Ok files =>
  if bool_decide (length files = 0%nat) then (Return (Ok ()), done) else
  (* Process every custom key found *)
  match removeCustomKeys env pubkeyMap files done with
  | (Some err, done) => (Return (Err err), done)
  | (None, done) =>
  (* Delete the wallet and password *)
  let done := done ++ [DeleteWallet] in
  match DeleteError env with
  | Some err => (Return (Err ("error deleting wallet: " +:+ err)), done)
  | None =>
  let done := done ++ [DeletePassword] in
  match DeletePasswordError env with
  | Some err => (Return (Err ("error deleting password: " +:+ err)), done)
  | None =>
  (* Restart the VC once cleanup is done *)
  let done := done ++ [RestartValidator] in
  match RestartValidatorError env with
  | Some err => (Return (Err ("error restarting validator client: " +:+ err)), done)
  | None => (Return (Ok ()), done)
  end end end end end end end end end end end end end end.

(** Every service [purge] asks for is there. *)
Definition servicesUp (env : Env) : Prop :=
  GetConfig env = None ∧ GetRocketPool env = None ∧ GetWallet env = None
  ∧ GetPasswordManager env = None ∧ GetNodeAccount env = None
  ∧ GetBeaconClient env = None ∧ GetDocker env = None.

(** There is nothing under the custom key path: it does not exist, it is
    not a directory, or it is a directory without entries. *)
Definition noCustomKeys (env : Env) : Prop :=
  (∃ err, Stat env = StatNotExist err)
  ∨ (∃ info, Stat env = StatInfo info ∧ IsDir info = false)
  ∨ (∃ info, Stat env = StatInfo info ∧ IsDir info = true ∧ ReadDir env = Ok []).

(** A node with two validating minipools and no custom key directory. *)
Definition sampleEnv : Env :=
  {| GetConfig := None; GetRocketPool := None; GetWallet := None;
     GetPasswordManager := None; GetNodeAccount := None;
     GetBeaconClient := None; GetDocker := None;
     GetNodeValidatingMinipoolPubkeys := Ok ["0xa1"; "0xb2"];
     GetCustomKeyPath := "/data/custom-keys";
     Stat := StatNotExist "stat /data/custom-keys: no such file or directory";
     ReadDir := Err "open /data/custom-keys: no such file or directory";
     ReadFile := λ _, Err "no such file or directory";
     Unmarshal := λ _, Err "unexpected end of JSON input";
     RemoveAllError := λ _, None;
     DeleteError := None;
     DeletePasswordError := None;
     RestartValidatorError := None |}.

(** The same node, with a custom key path that cannot be examined. *)
Definition unreadableEnv : Env :=
  {| GetConfig := None; GetRocketPool := None; GetWallet := None;
     GetPasswordManager := None; GetNodeAccount := None;
     GetBeaconClient := None; GetDocker := None;
     GetNodeValidatingMinipoolPubkeys := Ok ["0xa1"; "0xb2"];
     GetCustomKeyPath := "/data/custom-keys";
     Stat := StatOtherError "stat /data/custom-keys: permission denied";
     ReadDir := Err "open /data/custom-keys: permission denied";
     ReadFile := λ _, Err "permission denied";
     Unmarshal := λ _, Err "unexpected end of JSON input";
     RemoveAllError := λ _, None;
     DeleteError := None;
     DeletePasswordError := None;
     RestartValidatorError := None |}.

(** What the loop over the custom keystores finds in [file]: the public
    key of the keystore, when the file can be read and deserialized. *)
Definition keystorePubkey (env : Env) (file : FileInfo) : option string :=
  match ReadFile env (Join (GetCustomKeyPath env) (Name file)) with
  | Ok bytes =>
      match Unmarshal env bytes with
      | Ok pubkey => Some pubkey
      | Err _ => None
      end
  | Err _ => None
  end.

(** The loop over the custom keystores runs to its end: every file can be
    read and deserialized, and each one that holds a key of the node is
    removed without error. *)
Definition keystoresProcessed (env : Env) (pubkeys : list string)
    (files : list FileInfo) : Prop :=
  Forall (λ file,
            ∃ pubkey,
              keystorePubkey env file = Some pubkey
              ∧ (pubkey ∈ pubkeys →
                 RemoveAllError env (Join (GetCustomKeyPath env) (Name file)) = None))
         files.

(** The keystore in [file] holds one of [pubkeys]. *)
Definition ownKeystore (env : Env) (pubkeys : list string) (file : FileInfo) : bool :=
  match keystorePubkey env file with
  | Some pubkey => bool_decide (pubkey ∈ pubkeys)
  | None => false
  end.

(** The paths of the keystores of [files] that hold one of [pubkeys], in
    the order of [files]. *)
Definition ownKeystorePaths (env : Env) (pubkeys : list string)
    (files : list FileInfo) : list string :=
  (λ file, Join (GetCustomKeyPath env) (Name file))
    <$> filter (λ file, ownKeystore env pubkeys file = true) files.

(** The custom key path is a directory with the entries [files], at least
    one: the loop over the custom keystores is reached. *)
Definition customKeysFound (env : Env) (files : list FileInfo) : Prop :=
  ∃ info, Stat env = StatInfo info ∧ IsDir info = true
          ∧ ReadDir env = Ok files ∧ files ≠ [].

(** A node with two validating minipools and three custom keystores: one
    for each of its keys and one for a key of another node. *)
Definition customKeysEnv : Env :=
  {| GetConfig := None; GetRocketPool := None; GetWallet := None;
     GetPasswordManager := None; GetNodeAccount := None;
     GetBeaconClient := None; GetDocker := None;
     GetNodeValidatingMinipoolPubkeys := Ok ["0xa1"; "0xb2"];
     GetCustomKeyPath := "/data/custom-keys";
     Stat := StatInfo {| Name := "custom-keys"; IsDir := true |};
     ReadDir := Ok [{| Name := "a.json"; IsDir := false |};
                    {| Name := "c.json"; IsDir := false |};
                    {| Name := "b.json"; IsDir := false |}];
     ReadFile := λ path,
       if bool_decide (path = "/data/custom-keys/a.json") then Ok "0xa1"
       else if bool_decide (path = "/data/custom-keys/b.json") then Ok "0xb2"
       else if bool_decide (path = "/data/custom-keys/c.json") then Ok "0xc3"
       else Err "no such file or directory";
     Unmarshal := λ bytes, Ok bytes;
     RemoveAllError := λ _, None;
     DeleteError := None;
     DeletePasswordError := None;
     RestartValidatorError := None |}.

(** The same node when its wallet service cannot be had. *)
Definition noWalletEnv : Env :=
  {| GetConfig := None; GetRocketPool := None;
     GetWallet := Some "wallet not initialized";
     GetPasswordManager := None; GetNodeAccount := None;
     GetBeaconClient := None; GetDocker := None;
     GetNodeValidatingMinipoolPubkeys := Ok ["0xa1"; "0xb2"];
     GetCustomKeyPath := "/data/custom-keys";
     Stat := StatInfo {| Name := "custom-keys"; IsDir := true |};
     ReadDir := Ok [{| Name := "a.json"; IsDir := false |}];
     ReadFile := λ _, Ok "0xa1";
     Unmarshal := λ bytes, Ok bytes;
     RemoveAllError := λ _, None;
     DeleteError := None;
     DeletePasswordError := None;
     RestartValidatorError := None |}.

End wallet.

(** ** [respondChallenges.run] (package [watchtower]) *)

Module respondChallenges.

(** What a call of [run] does that is seen from outside: the lines it
    prints on [t.log] and the call of [trustednode.DecideChallenge], which
    submits the transaction. The node's address is given by its [Hex()]. *)
Inductive Action (TransactOpts : Type) : Type :=
| Println (line : string)
| DecideChallenge (address : string) (opts : TransactOpts).
Arguments Println {TransactOpts} line.
Arguments DecideChallenge {TransactOpts} address opts.

(** What [run] calls. [TransactOpts] stands for [*bind.TransactOpts], which
    the task only hands on. *)
Record Env (TransactOpts : Type) : Type := mkEnv {
  (** [services.WaitEthClientSynced(t.c, true)], once it returns *)
  WaitEthClientSynced : option error;
  (** [t.w.GetNodeAccount()], by [nodeAccount.Address] *)
  GetNodeAccount : result string;
  (** [trustednode.GetMemberExists(t.rp, address, nil)] *)
  GetMemberExists : string → result bool;
  (** [trustednode.GetMemberIsChallenged(t.rp, address, nil)] *)
  GetMemberIsChallenged : string → result bool;
  (** [t.w.GetNodeAccountTransactor()] *)
  GetNodeAccountTransactor : result TransactOpts;
  (** the error of [trustednode.DecideChallenge(t.rp, address, opts)] *)
  DecideChallengeError : string → TransactOpts → option error;
}.
Arguments WaitEthClientSynced {TransactOpts} _.
Arguments GetNodeAccount {TransactOpts} _.
Arguments GetMemberExists {TransactOpts} _ _.
Arguments GetMemberIsChallenged {TransactOpts} _ _.
Arguments GetNodeAccountTransactor {TransactOpts} _.
Arguments DecideChallengeError {TransactOpts} _ _ _.

(** The two lines printed with [t.log.Printlnf]. *)
Definition challengedLine (address : string) : string :=
  "Node " +:+ address +:+ " has an active challenge against it, responding...".

Definition respondedLine (address : string) : string :=
  "Successfully responded to challenge against node " +:+ address +:+ ".".

(** [func (t *respondChallenges) run() error]. *)
Definition run {TransactOpts} (env : Env TransactOpts)
  : option error * list (Action TransactOpts) :=
  (* Wait for eth client to sync *)
  match WaitEthClientSynced env with Some err => (Some err, []) | None =>
  (* Get node account *)
  match GetNodeAccount env with Err err => (Some err, []) | Ok nodeAccount =>
  (* Check node trusted status *)
  match GetMemberExists env nodeAccount with Err err => (Some err, []) | Ok nodeTrusted =>
  if negb nodeTrusted then (None, []) else
  (* Log *)
  let done := [Println "Checking for challenges to respond to..."] in
  (* Check for active challenges *)
  match GetMemberIsChallenged env nodeAccount with Err err => (Some err, done) | Ok isChallenged =>
  if negb isChallenged then (None, done) else
  (* Log *)
  let done := done ++ [Println (challengedLine nodeAccount)] in
  (* Get transactor *)
  match GetNodeAccountTransactor env with Err err => (Some err, done) | Ok opts =>
  (* Respond to challenge *)
  let done := done ++ [DecideChallenge nodeAccount opts] in
  match DecideChallengeError env nodeAccount opts with Some err => (Some err, done) | None =>
  (* Log & return *)
  (None, done ++ [Println (respondedLine nodeAccount)])
  end end end end end end.

(** The node is a challenged member of the oracle DAO and its transactor
    [opts] is at hand: every call before [trustednode.DecideChallenge]
    succeeds. *)
Definition challenged {TransactOpts} (env : Env TransactOpts)
    (address : string) (opts : TransactOpts) : Prop :=
  WaitEthClientSynced env = None
  ∧ GetNodeAccount env = Ok address
  ∧ GetMemberExists env address = Ok true
  ∧ GetMemberIsChallenged env address = Ok true
  ∧ GetNodeAccountTransactor env = Ok opts.

(** A challenged member whose transaction goes through; [TransactOpts] is
    taken to be the sender's address. *)
Definition challengedEnv : Env string :=
  {| WaitEthClientSynced := None;
     GetNodeAccount := Ok "0xNode";
     GetMemberExists := λ _, Ok true;
     GetMemberIsChallenged := λ address, Ok (bool_decide (address = "0xNode"));
     GetNodeAccountTransactor := Ok "0xNode";
     DecideChallengeError := λ _ _, None |}.

End respondChallenges.

(** ** [createMetricsStep] (package [config]) *)

Module config.

(** The [Value] of a parameter of the configuration: a [bool], or a value
    of another type (given by how it prints). *)
Inductive Value : Type :=
| VBool (b : bool)
| VOther (v : string).

(** [v == true]. *)
Definition eq_true (v : Value) : bool :=
  match v with
  | VBool b => b
  | VOther _ => false
  end.

(** [wiz.md.Config], as far as the step reads and writes it. *)
Record Config : Type := mkConfig {
  EnableMetrics : Value;
  ConsensusClientMode : Value;
}.

(** The other modals of the wizard that the step shows. *)
Inductive Modal : Type :=
| finishedModal
| consensusLocalModal
| consensusExternalSelectModal.

(** What the closures of the step do to the display. *)
Inductive Event : Type :=
| setPage (page : string)     (* [wiz.md.setPage(modal.page)] *)
| focus (button : Z)          (* [modal.focus(button)] *)
| showModal (modal : Modal).  (* [wiz.<modal>.show()] *)

(** [show := func(modal *choiceModalLayout) { ... }], for a modal with the
    page [page]. *)
Definition show (page : string) (cfg : Config) : list Event :=
  [setPage page;
   if eq_true (EnableMetrics cfg) then focus 0 else focus 1].

(** [done := func(buttonIndex int, buttonLabel string) { ... }]. *)
Definition done (buttonIndex : Z) (buttonLabel : string) (cfg : Config)
  : Config * list Event :=
  (if bool_decide (buttonIndex = 0)
   then {| EnableMetrics := VBool true; ConsensusClientMode := ConsensusClientMode cfg |}
   else {| EnableMetrics := VBool false; ConsensusClientMode := ConsensusClientMode cfg |},
   [showModal finishedModal]).

(** [back := func() { ... }]. *)
Definition back (cfg : Config) : list Event :=
  if eq_true (ConsensusClientMode cfg)
  then [showModal consensusLocalModal]
  else [showModal consensusExternalSelectModal].

(** The labels of the buttons the step is created with. *)
Definition labels : list string := ["Yes"; "No"].

End config.

(** ** The Merkle tree builder, from the design document

    [rprewards.GenerateMerkleTree] is a function of this repository whose
    source is not among the files embedded here; the task only calls it. *)

Module MerkleSpec.
Section builder.
Context {Hash : Type}.
(** The protocol-fixed parts: the hash of a leaf's packed address and
    amount, the hash of two children, the rule for a node without a
    sibling (pair it with itself, or promote it as it is), and the root of
    the tree without leaves. *)
Variable hashLeaf : N → Z → Hash.
Variable hashPair : Hash → Hash → Hash.
Variable oddNode : Hash → Hash.
Variable emptyRoot : Hash.

(** Modelled from the spec: the canonical ordering of the leaves in
    [rprewards.GenerateMerkleTree], whose source is missing (Merkle Tree
    Builder, section 4.5): by address. *)
Definition byAddress (x y : N * Z) : Prop := (x.1 ≤ y.1)%N.

#[local] Instance byAddress_dec x y : Decision (byAddress x y).
Proof. unfold byAddress. apply _. Defined.

(** Modelled from the spec: the leaf set of
    [rprewards.GenerateMerkleTree], whose source is missing (Merkle Tree
    Builder, section 4.5): one leaf for each node with a nonzero reward. *)
Definition leafSet (entries : list (N * Z)) : list (N * Z) :=
  filter (λ e, e.2 ≠ 0) entries.

(** Modelled from the spec: the leaves of
    [rprewards.GenerateMerkleTree], whose source is missing (Merkle Tree
    Builder, section 4.5), in their canonical order. *)
Definition canonicalLeaves (entries : list (N * Z)) : list (N * Z) :=
  merge_sort byAddress (leafSet entries).

(** Modelled from the spec: one level of the binary hash tree of
    [rprewards.GenerateMerkleTree], whose source is missing (Merkle Tree
    Builder, section 4.5), from the level below it. *)
Fixpoint pairUp (level : list Hash) : list Hash :=
  match level with
  | a :: b :: rest => hashPair a b :: pairUp rest
  | [a] => [oddNode a]
  | [] => []
  end.

(** Modelled from the spec: the root of the binary hash tree of
    [rprewards.GenerateMerkleTree], whose source is missing (Merkle Tree
    Builder, section 4.5), over a level; [fuel] bounds the number of
    levels. *)
Fixpoint reduce (fuel : nat) (level : list Hash) : Hash :=
  match level with
  | [] => emptyRoot
  | [h] => h
  | _ =>
      match fuel with
      | O => emptyRoot
      | S fuel' => reduce fuel' (pairUp level)
      end
  end.

(** Modelled from the spec: [root()] of the tree of
    [rprewards.GenerateMerkleTree], whose source is missing (Merkle Tree
    Builder, section 4.5), for the entries of a distribution in the order
    they were met. *)
Definition root (entries : list (N * Z)) : Hash :=
  let leaves := (λ e, hashLeaf e.1 e.2) <$> canonicalLeaves entries in
  reduce (length leaves) leaves.

(** Modelled from the spec: a call of [rprewards.GenerateMerkleTree],
    whose source is missing, on a distribution map (Merkle Tree Builder,
    section 4.5). The map's entries are met in an order the map does not
    fix (Go's [range] over a map); every order is a build. *)
Definition builds (D : gmap N Z) (r : Hash) : Prop :=
  ∃ entries, entries ≡ₚ map_to_list D ∧ r = root entries.

End builder.
End MerkleSpec.

(** *** A configuration to run the model on *)

Definition digit_of (c : Ascii.ascii) : option Z :=
  let n := Z.of_nat (Ascii.nat_of_ascii c) in
  if (48 <=? n) && (n <=? 57) then Some (n - 48) else None.

Fixpoint parseDigits (acc : Z) (s : string) : option Z :=
  match s with
  | EmptyString => Some acc
  | String c s' =>
      match digit_of c with
      | Some d => parseDigits (10 * acc + d) s'
      | None => None
      end
  end.

(** [strconv.ParseUint(s, 0, 64)] on decimal numerals: a non-empty string of
    digits without a leading zero and below [2^64] gives its value; the
    sample configuration rejects every other string (the library also reads
    [0x], [0o], [0b] and [_]). *)
Definition parseDecimal (s : string) : result Z :=
  match s with
  | EmptyString => Err ("strconv.ParseUint: parsing " +:+ s +:+ ": invalid syntax")
  | String c s' =>
      match parseDigits 0 s with
      | Some n =>
          if bool_decide (digit_of c = Some 0 ∧ s' ≠ EmptyString) then
            Err ("strconv.ParseUint: parsing " +:+ s +:+ ": invalid syntax")
          else if n <? 2 ^ 64 then Ok n
          else Err ("strconv.ParseUint: parsing " +:+ s +:+ ": value out of range")
      | None => Err ("strconv.ParseUint: parsing " +:+ s +:+ ": invalid syntax")
      end
  end.

Definition sampleConfig : Config :=
  {| GetWatchtowerFolder := "/data/watchtower";
     RegenerateRewardsTreeRequestSuffix := ".request";
     ParseUint := parseDecimal;
     GetRewardsTreePath := λ index, "/data/rewards-trees/rp-rewards-" +:+ fmt_d index +:+ ".json" |}.

Definition worldOf (entries : list FileInfo) : World :=
  {| readDirError := None; requests := entries;
     removeError := ∅; writeError := ∅; partialWrite := ∅;
     disk := ∅; journal := [] |}.

Definition idle (w : World) : State :=
  {| isRunning := false; log := []; errLog := []; world := w; started := [] |}.

Definition regular (name : string) : FileInfo := {| Name := name; IsDir := false |}.

Definition set_requests (entries : list FileInfo) (t : State) : State :=
  set_world
    {| readDirError := readDirError (world t); requests := entries;
       removeError := removeError (world t); writeError := writeError (world t);
       partialWrite := partialWrite (world t);
       disk := disk (world t); journal := journal (world t) |} t.

(** [n] calls of [run] in a row, each after the one before has returned
    and with nothing else touching the state in between. *)
Fixpoint polls (cfg : Config) (n : nat) (t : State) : State :=
  match n with
  | O => t
  | S n' => polls cfg n' (run cfg t).2
  end.

(** The requests that wait in the watchtower folder, in the order of the
    listing. *)
Definition pending (cfg : Config) (w : World) : list FileInfo :=
  filter (λ f, isRequest cfg f = true) (requests w).

(** A poll and, when it started a generation, that generation run to its
    return before anything else happens. *)
Definition pollAndGenerate {NodeRewards NetworkRewards Tree Wrapper}
    (cfg : Config) (svc : Services NodeRewards NetworkRewards Tree Wrapper)
    (t : State) : State :=
  let t' := (run cfg t).2 in
  match drop (length (started t)) (started t') with
  | index :: _ => generateRewardsTree cfg svc index t'
  | [] => t'
  end.

(** [n] such polls in a row. *)
Fixpoint cycles {NodeRewards NetworkRewards Tree Wrapper}
    (cfg : Config) (svc : Services NodeRewards NetworkRewards Tree Wrapper)
    (n : nat) (t : State) : State :=
  match n with
  | O => t
  | S n' => cycles cfg svc n' (pollAndGenerate cfg svc t)
  end.

(** The request [f] can be served in the world [w]: its index parses to
    [index] and the operating system lets the file be removed. *)
Definition servableAs (cfg : Config) (w : World) (f : FileInfo) (index : Z) : Prop :=
  ParseUint cfg (TrimSuffix (Name f) (RegenerateRewardsTreeRequestSuffix cfg)) = Ok index
  ∧ removeError w !! Join (GetWatchtowerFolder cfg) (Name f) = None.

(** Sample directories: a request with a malformed index before a
    well-formed one; a request the operating system refuses to delete; a
    request found while a generation is running. *)
Definition malformedFirst : State :=
  idle (worldOf [regular "-1.request"; regular "5.request"]).

Definition undeletable : State :=
  idle {| readDirError := None; requests := [regular "5.request"];
          removeError := {[ "/data/watchtower/5.request" := "permission denied" ]};
          writeError := ∅; partialWrite := ∅; disk := ∅; journal := [] |}.

Definition busy : State :=
  set_isRunning true (idle (worldOf [regular "5.request"])).

(** An entry the loop of [run] would serve: a request whose index parses. *)
Definition servable (cfg : Config) (f : FileInfo) : bool :=
  isRequest cfg f
  && negb (is_err (ParseUint cfg (TrimSuffix (Name f) (RegenerateRewardsTreeRequestSuffix cfg)))).

(** *** Services to run the generation on *)

Definition sampleEvent (canonical : list Byte.byte) : RewardsEvent :=
  {| Block := 4800000;
     IntervalStartTime := time_Unix 1660000000;
     IntervalEndTime := time_Unix 1662419200;
     MerkleRoot := canonical |}.

Definition rootA : list Byte.byte := replicate 32 Byte.x2a.
Definition rootB : list Byte.byte := replicate 32 Byte.x2b.

(** A snapshot for interval 7 only, whose canonical root is [canonical];
    the local tree always has root [rootA]. *)
Definition sampleServices (canonical : list Byte.byte)
  : Services (list (string * Z)) (list (Z * Z)) (list Byte.byte) string :=
  {| GetEventLogInterval := Ok 1000;
     GetRewardSnapshotEvent := λ index _,
       if index =? 7 then Ok (sampleEvent canonical)
       else Err ("reward snapshot for interval " +:+ fmt_d index +:+ " not found");
     GetEth2Config := Ok {| GenesisTime := 1606824023; SecondsPerSlot := 12 |};
     GetELBlockHeaderForTime := λ _, Ok {| Number := 15500000 |};
     CalculateRplRewards := λ _ _, Ok ([("0xNode", 100)], [(0, 100)], []);
     GenerateMerkleTree := λ _, Ok rootA;
     Root := λ tree, tree;
     GenerateTreeJson := λ root _ _, "{root: " +:+ hexutil_Encode root +:+ "}";
     json_Marshal := λ wrapper, Ok wrapper;
     Time_String := λ t, fmt_d (Time_Unix t);
     calculationTook := "1.5s";
     treeTook := "2ms" |}.

Definition treePath7 : string := "/data/rewards-trees/rp-rewards-7.json".

(** *** Statements about the generation *)

Section statements.
Context {NodeRewards NetworkRewards Tree Wrapper : Type}.
Variable cfg : Config.
Variable svc : Services NodeRewards NetworkRewards Tree Wrapper.
Variable index : Z.

(** Every stage of the generation succeeds in world [w]: the snapshot
    event is [rewardsEvent], the tree is [tree], the document serializes to
    [data] and the world accepts the write. *)
Definition succeeds (w : World) (rewardsEvent : RewardsEvent) (tree : Tree)
    (data : string) : Prop :=
  ∃ eventLogInterval eth2Config elBlockHeader nodeRewardsMap networkRewardsMap invalid,
    GetEventLogInterval svc = Ok eventLogInterval
    ∧ GetRewardSnapshotEvent svc index (int64 eventLogInterval) = Ok rewardsEvent
    ∧ GetEth2Config svc = Ok eth2Config
    ∧ GetELBlockHeaderForTime svc (blockTimeOf rewardsEvent eth2Config) = Ok elBlockHeader
    ∧ CalculateRplRewards svc elBlockHeader
        (Time_Sub (IntervalEndTime rewardsEvent) (IntervalStartTime rewardsEvent))
      = Ok (nodeRewardsMap, networkRewardsMap, invalid)
    ∧ GenerateMerkleTree svc nodeRewardsMap = Ok tree
    ∧ json_Marshal svc (GenerateTreeJson svc (Root svc tree) nodeRewardsMap networkRewardsMap)
      = Ok data
    ∧ writeError w !! GetRewardsTreePath cfg index = None.

(** A stage of the generation fails in world [w], the stages before it
    having succeeded; [msg] is what the task says about it, after the
    interval's prefix. *)
Inductive fails (w : World) : string → Prop :=
| fails_interval err :
    GetEventLogInterval svc = Err err →
    fails w (" Error getting event log interval: " +:+ err)
| fails_event n err :
    GetEventLogInterval svc = Ok n →
    GetRewardSnapshotEvent svc index (int64 n) = Err err →
    fails w (" Error getting event for interval " +:+ fmt_d index +:+ ": " +:+ err)
| fails_beacon n ev err :
    GetEventLogInterval svc = Ok n →
    GetRewardSnapshotEvent svc index (int64 n) = Ok ev →
    GetEth2Config svc = Err err →
    fails w (" Error getting Beacon config: " +:+ err)
| fails_block n ev c err :
    GetEventLogInterval svc = Ok n →
    GetRewardSnapshotEvent svc index (int64 n) = Ok ev →
    GetEth2Config svc = Ok c →
    GetELBlockHeaderForTime svc (blockTimeOf ev c) = Err err →
    fails w (" Error getting matching EL block: " +:+ err)
| fails_rewards n ev c hdr err :
    GetEventLogInterval svc = Ok n →
    GetRewardSnapshotEvent svc index (int64 n) = Ok ev →
    GetEth2Config svc = Ok c →
    GetELBlockHeaderForTime svc (blockTimeOf ev c) = Ok hdr →
    CalculateRplRewards svc hdr (Time_Sub (IntervalEndTime ev) (IntervalStartTime ev))
      = Err err →
    fails w (" Error calculating node operator rewards: " +:+ err)
| fails_tree n ev c hdr nodes nets invalid err :
    GetEventLogInterval svc = Ok n →
    GetRewardSnapshotEvent svc index (int64 n) = Ok ev →
    GetEth2Config svc = Ok c →
    GetELBlockHeaderForTime svc (blockTimeOf ev c) = Ok hdr →
    CalculateRplRewards svc hdr (Time_Sub (IntervalEndTime ev) (IntervalStartTime ev))
      = Ok (nodes, nets, invalid) →
    GenerateMerkleTree svc nodes = Err err →
    fails w (" Error generating Merkle tree: " +:+ err)
| fails_json n ev c hdr nodes nets invalid tree err :
    GetEventLogInterval svc = Ok n →
    GetRewardSnapshotEvent svc index (int64 n) = Ok ev →
    GetEth2Config svc = Ok c →
    GetELBlockHeaderForTime svc (blockTimeOf ev c) = Ok hdr →
    CalculateRplRewards svc hdr (Time_Sub (IntervalEndTime ev) (IntervalStartTime ev))
      = Ok (nodes, nets, invalid) →
    GenerateMerkleTree svc nodes = Ok tree →
    json_Marshal svc (GenerateTreeJson svc (Root svc tree) nodes nets) = Err err →
    fails w (" Error serializing proof wrapper into JSON: " +:+ err)
| fails_write n ev c hdr nodes nets invalid tree data err :
    GetEventLogInterval svc = Ok n →
    GetRewardSnapshotEvent svc index (int64 n) = Ok ev →
    GetEth2Config svc = Ok c →
    GetELBlockHeaderForTime svc (blockTimeOf ev c) = Ok hdr →
    CalculateRplRewards svc hdr (Time_Sub (IntervalEndTime ev) (IntervalStartTime ev))
      = Ok (nodes, nets, invalid) →
    GenerateMerkleTree svc nodes = Ok tree →
    json_Marshal svc (GenerateTreeJson svc (Root svc tree) nodes nets) = Ok data →
    writeError w !! GetRewardsTreePath cfg index = Some err →
    fails w (" Error saving file to " +:+ GetRewardsTreePath cfg index +:+ ": " +:+ err).

(** The artifact carries a field that tells whether the local root matched
    the canonical one: [matchesCanonical] reads it from the written
    document. *)
Definition flagsCanonical (matchesCanonical : string → bool) (t : State) : Prop :=
  ∀ rewardsEvent tree data,
    succeeds (world t) rewardsEvent tree data →
    ∃ written,
      disk (world (generateRewardsTree cfg svc index t)) !! GetRewardsTreePath cfg index
      = Some written
      ∧ matchesCanonical written
        = bool_decide (BytesToHash (Root svc tree) = MerkleRoot rewardsEvent).

(** Every stage before the write succeeds in world [w], the document
    serializes to [data], and the world refuses the write with [err]. *)
Definition writeRefused (w : World) (data : string) (err : error) : Prop :=
  ∃ eventLogInterval rewardsEvent eth2Config elBlockHeader nodeRewardsMap
    networkRewardsMap invalid tree,
    GetEventLogInterval svc = Ok eventLogInterval
    ∧ GetRewardSnapshotEvent svc index (int64 eventLogInterval) = Ok rewardsEvent
    ∧ GetEth2Config svc = Ok eth2Config
    ∧ GetELBlockHeaderForTime svc (blockTimeOf rewardsEvent eth2Config) = Ok elBlockHeader
    ∧ CalculateRplRewards svc elBlockHeader
        (Time_Sub (IntervalEndTime rewardsEvent) (IntervalStartTime rewardsEvent))
      = Ok (nodeRewardsMap, networkRewardsMap, invalid)
    ∧ GenerateMerkleTree svc nodeRewardsMap = Ok tree
    ∧ json_Marshal svc (GenerateTreeJson svc (Root svc tree) nodeRewardsMap networkRewardsMap)
      = Ok data
    ∧ writeError w !! GetRewardsTreePath cfg index = Some err.

(** Whatever stage fails, the failure is caught and no artifact file is
    written: the disk is as it was. *)
Definition failureWritesNothing (t : State) : Prop :=
  ∀ msg,
    fails (world t) msg →
    errLog (generateRewardsTree cfg svc index t)
    = errLog t ++ [intervalPrefix index +:+ msg;
                   "*** Rewards tree generation failed. ***"]
    ∧ isRunning (generateRewardsTree cfg svc index t) = false
    ∧ disk (world (generateRewardsTree cfg svc index t)) = disk (world t).

(** The artifact is written to a temporary path and renamed into place. *)
Definition writesThenRenames (t : State) : Prop :=
  ∀ rewardsEvent tree data,
    succeeds (world t) rewardsEvent tree data →
    ∃ tmp perm,
      tmp ≠ GetRewardsTreePath cfg index
      ∧ journal (world (generateRewardsTree cfg svc index t))
        = journal (world t)
          ++ [SysWriteFile tmp data perm; SysRename tmp (GetRewardsTreePath cfg index)].

(** The services with another canonical root in every snapshot event. *)
Definition withCanonicalRoot (canonical : list Byte.byte)
  : Services NodeRewards NetworkRewards Tree Wrapper :=
  {| GetEventLogInterval := GetEventLogInterval svc;
     GetRewardSnapshotEvent := λ i n,
       match GetRewardSnapshotEvent svc i n with
       | Ok ev =>
           Ok {| Block := Block ev; IntervalStartTime := IntervalStartTime ev;
                 IntervalEndTime := IntervalEndTime ev; MerkleRoot := canonical |}
       | Err err => Err err
       end;
     GetEth2Config := GetEth2Config svc;
     GetELBlockHeaderForTime := GetELBlockHeaderForTime svc;
     CalculateRplRewards := CalculateRplRewards svc;
     GenerateMerkleTree := GenerateMerkleTree svc;
     Root := Root svc;
     GenerateTreeJson := GenerateTreeJson svc;
     json_Marshal := json_Marshal svc;
     Time_String := Time_String svc;
     calculationTook := calculationTook svc;
     treeTook := treeTook svc |}.

(** The services with a block lookup that answers every time as [svc]
    answers [time]. *)
Definition lookingUpOnly (time : Time)
  : Services NodeRewards NetworkRewards Tree Wrapper :=
  {| GetEventLogInterval := GetEventLogInterval svc;
     GetRewardSnapshotEvent := GetRewardSnapshotEvent svc;
     GetEth2Config := GetEth2Config svc;
     GetELBlockHeaderForTime := λ _, GetELBlockHeaderForTime svc time;
     CalculateRplRewards := CalculateRplRewards svc;
     GenerateMerkleTree := GenerateMerkleTree svc;
     Root := Root svc;
     GenerateTreeJson := GenerateTreeJson svc;
     json_Marshal := json_Marshal svc;
     Time_String := Time_String svc;
     calculationTook := calculationTook svc;
     treeTook := treeTook svc |}.

End statements.

(** The block time is the genesis time plus the slots' seconds, exactly. *)
Definition exactBlockTime (rewardsEvent : RewardsEvent) (eth2Config : Eth2Config) : Prop :=
  Time_Unix (blockTimeOf rewardsEvent eth2Config)
  = GenesisTime eth2Config + Block rewardsEvent * SecondsPerSlot eth2Config.

(** The scenario of the design document for the watcher, read for every
    directory: whenever the directory holds an entry the loop would serve,
    a poll from [t] removes the first such entry, starts the generation for
    its index once and returns [nil]. *)
Definition servesFirstServable (cfg : Config) (t : State) : Prop :=
  readDirError (world t) = None →
  ∀ f index,
    find (servable cfg) (requests (world t)) = Some f →
    ParseUint cfg (TrimSuffix (Name f) (RegenerateRewardsTreeRequestSuffix cfg)) = Ok index →
    (run cfg t).1 = None
    ∧ requests (world (run cfg t).2)
      = filter (λ g, Name g ≠ Name f) (requests (world t))
    ∧ started (run cfg t).2 = started t ++ [index].

(** The beacon chain's configuration on the main network, and a snapshot
    event recorded eight hundred million slots after genesis. *)
Definition mainnet : Eth2Config :=
  {| GenesisTime := 1606824023; SecondsPerSlot := 12 |}.

Definition farEvent : RewardsEvent :=
  {| Block := 800000000;
     IntervalStartTime := time_Unix 0;
     IntervalEndTime := time_Unix 0;
     MerkleRoot := rootA |}.

(** A distribution over two nodes, and toy hashes to build its tree with. *)
Definition sampleDistribution : gmap N Z := {[ 1%N := 5; 2%N := 7 ]}.

Definition toyRoot (entries : list (N * Z)) : Z :=
  MerkleSpec.root (λ address amount, Z.of_N address * 1000 + amount)
    (λ l r, 31 * l + r) (λ h, h) 0 entries.

(** Two requests in the watchtower folder. *)
Definition twoRequests : World :=
  worldOf [regular "5.request"; regular "6.request"].

(** The artifact of interval 7 is on disk from an earlier generation, and
    the device is full: a write to its path fails after the file has been
    truncated and nine bytes have been written. *)
Definition tornWrite : State :=
  idle {| readDirError := None; requests := [];
          removeError := ∅;
          writeError := {[ treePath7 := "write " +:+ treePath7 +:+ ": no space left on device" ]};
          partialWrite := {[ treePath7 := 9%nat ]};
          disk := {[ treePath7 := "{root: 0x1111111111111111111111111111111111111111111111111111111111111111}" ]};
          journal := [] |}.

(** * Properties *)

(** ** The request watcher *)

Example run_5 :
  run sampleConfig (idle (worldOf [regular "5.request"; regular "6.request"]))
  = (None,
     {| isRunning := true;
        log := ["Checking for manual rewards tree generation requests..."];
        errLog := [];
        world :=
          {| readDirError := None; requests := [regular "6.request"];
             removeError := ∅; writeError := ∅; partialWrite := ∅; disk := ∅;
             journal := [SysReadDir "/data/watchtower";
                         SysRemove "/data/watchtower/5.request"] |};
        started := [5] |}).
Proof. vm_compute. reflexivity. Qed.

Lemma append_inj_l (p a b : string) : p +:+ a = p +:+ b → a = b.
Proof.
  induction p as [|c p IH]; simpl; [done|].
  intros H. injection H as H. auto.
Qed.

Lemma Join_inj dir a b : Join dir a = Join dir b → a = b.
Proof.
  unfold Join. intros H.
  apply append_inj_l in H. by apply append_inj_l in H.
Qed.

(** The loop serves the first entry that is a request, and only looks at
    that one. *)
Lemma scanRequests_find cfg files w :
  scanRequests cfg files w =
  match find (isRequest cfg) files with
  | Some f => scanRequests cfg [f] w
  | None => (ScanNothing, w)
  end.
Proof.
  induction files as [|g files IH]; [done|].
  cbn [find]. destruct (isRequest cfg g) eqn:Hg.
  - cbn [scanRequests]. by rewrite Hg.
  - cbn [scanRequests]. rewrite Hg. apply IH.
Qed.

Lemma find_isRequest cfg files f :
  find (isRequest cfg) files = Some f → isRequest cfg f = true.
Proof. intros H. by apply find_some in H as [_ ?]. Qed.

(** What the loop does with a request at the head of the listing. *)
Lemma scanRequests_request cfg f w :
  isRequest cfg f = true →
  scanRequests cfg [f] w =
  match ParseUint cfg (TrimSuffix (Name f) (RegenerateRewardsTreeRequestSuffix cfg)) with
  | Err err => (ScanError ("Error parsing index from [" +:+ Name f +:+ "]: " +:+ err), w)
  | Ok index =>
      let path := Join (GetWatchtowerFolder cfg) (Name f) in
      match removeError w !! path with
      | Some err =>
          (ScanError ("Error removing request file [" +:+ path +:+ "]: " +:+ err),
           record (SysRemove path) w)
      | None =>
          (ScanRequest index,
           record (SysRemove path)
             {| readDirError := readDirError w;
                requests := filter (λ g, Name g ≠ Name f) (requests w);
                removeError := removeError w; writeError := writeError w;
                partialWrite := partialWrite w;
                disk := disk w; journal := journal w |})
      end
  end.
Proof.
  intros Hf. cbn [scanRequests]. rewrite Hf.
  destruct (ParseUint _ _) as [index|err]; [|done].
  unfold Remove. destruct (removeError w !! _) as [e|]; [done|].
  do 3 f_equal. apply list_filter_iff. intros g. split.
  - intros H E. apply H. by rewrite E.
  - intros H E. apply H. by apply Join_inj in E.
Qed.

(** [run] past the test of [t.isRunning], by the outcome of the
    enumeration and of the loop. *)
Lemma run_idle cfg t :
  isRunning t = false →
  run cfg t =
  let t := log_Println "Checking for manual rewards tree generation requests..." t in
  match ReadDir (GetWatchtowerFolder cfg) (world t) with
  | (Err err, w) =>
      (Some ("Error enumerating files in watchtower storage directory: " +:+ err),
       set_world w t)
  | (Ok files, w) =>
      match find (isRequest cfg) files with
      | None => (None, set_world w t)
      | Some f =>
          match scanRequests cfg [f] w with
          | (ScanError err, w') => (Some err, set_world w' t)
          | (ScanRequest index, w') =>
              (None, go_generateRewardsTree index (set_isRunning true (set_world w' t)))
          | (ScanNothing, w') => (None, set_world w' t)
          end
      end
  end.
Proof.
  intros Hidle. unfold run. cbn [log_Println isRunning]. rewrite Hidle.
  cbn zeta. destruct (ReadDir _ _) as [[files|err] w]; [|done].
  rewrite scanRequests_find. by destruct (find _ _).
Qed.

(** C8. A poll returns an error exactly when, having found no generation
    running, it fails to enumerate the directory, or the index of the first
    request file fails to parse, or the removal of that file fails; in
    every other case (also when it finds a generation running and returns
    before it reads the directory) it returns [nil]. *)
Theorem run_error_iff cfg t :
  is_Some (run cfg t).1 ↔
    isRunning t = false
    ∧ (is_Some (readDirError (world t))
       ∨ (∃ f err,
            find (isRequest cfg) (requests (world t)) = Some f
            ∧ ParseUint cfg (TrimSuffix (Name f) (RegenerateRewardsTreeRequestSuffix cfg))
              = Err err)
       ∨ (∃ f index,
            find (isRequest cfg) (requests (world t)) = Some f
            ∧ ParseUint cfg (TrimSuffix (Name f) (RegenerateRewardsTreeRequestSuffix cfg))
              = Ok index
            ∧ is_Some (removeError (world t) !! Join (GetWatchtowerFolder cfg) (Name f)))).
Proof.
  destruct (isRunning t) eqn:Hidle.
  { unfold run. cbn [log_Println isRunning]. rewrite Hidle. cbn.
    split; [by intros [? [=]]|by intros [[=] _]]. }
  rewrite (run_idle _ _ Hidle). cbn zeta.
  unfold ReadDir. cbn [log_Println world].
  destruct (readDirError (world t)) as [e|] eqn:Hdir.
  { cbn. split; [intros _; split; [done|left; eauto]|eauto]. }
  cbn [record requests].
  destruct (find _ _) as [f|] eqn:Hfind.
  2:{ cbn. split; [by intros [? [=]]|].
      intros [_ [[? [=]]|[(?&?&[=]&_)|(?&?&[=]&_)]]]. }
  rewrite (scanRequests_request _ _ _ (find_isRequest _ _ _ Hfind)).
  destruct (ParseUint _ _) as [index|err] eqn:Hparse.
  2:{ cbn. split; [|eauto]. intros _. split; [done|]. right; left. eauto. }
  cbn zeta. cbn [record removeError].
  destruct (removeError (world t) !! _) as [e|] eqn:Hrm.
  { cbn. split; [|eauto]. intros _. split; [done|]. right; right.
    exists f, index. eauto. }
  cbn. split; [by intros [? [=]]|].
  intros [_ [[? [=]]|[(?&?&[=<-]&Hp)|(?&?&[=<-]&_&[? Hr])]]].
  - congruence.
  - congruence.
Qed.

Lemma run_error_iff_witness : is_Some (run sampleConfig malformedFirst).1.
Proof.
  apply (run_error_iff sampleConfig malformedFirst). split; [reflexivity|].
  right; left. by exists (regular "-1.request"), "strconv.ParseUint: parsing -1: invalid syntax".
Defined.

(** A poll that finds a malformed request first: what it returns and
    the state it leaves. *)
Lemma run_malformed cfg t f err :
  isRunning t = false →
  readDirError (world t) = None →
  find (isRequest cfg) (requests (world t)) = Some f →
  ParseUint cfg (TrimSuffix (Name f) (RegenerateRewardsTreeRequestSuffix cfg)) = Err err →
  run cfg t =
  (Some ("Error parsing index from [" +:+ Name f +:+ "]: " +:+ err),
   set_world (record (SysReadDir (GetWatchtowerFolder cfg)) (world t))
     (log_Println "Checking for manual rewards tree generation requests..." t)).
Proof.
  intros Hidle Hdir Hfind Hparse. rewrite (run_idle _ _ Hidle). cbn zeta.
  unfold ReadDir. cbn [log_Println world]. rewrite Hdir, Hfind.
  rewrite (scanRequests_request _ _ _ (find_isRequest _ _ _ Hfind)).
  by rewrite Hparse.
Qed.

(** Polls over a directory whose first request is malformed change the
    log and the journal only. *)
Lemma polls_malformed cfg f err n t :
  isRunning t = false →
  readDirError (world t) = None →
  find (isRequest cfg) (requests (world t)) = Some f →
  ParseUint cfg (TrimSuffix (Name f) (RegenerateRewardsTreeRequestSuffix cfg)) = Err err →
  isRunning (polls cfg n t) = false
  ∧ readDirError (world (polls cfg n t)) = None
  ∧ requests (world (polls cfg n t)) = requests (world t)
  ∧ started (polls cfg n t) = started t.
Proof.
  revert t. induction n as [|n IH]; intros t Hidle Hdir Hfind Hparse; [done|].
  cbn [polls]. rewrite (run_malformed _ _ _ _ Hidle Hdir Hfind Hparse).
  cbn [snd].
  by destruct (IH (set_world (record (SysReadDir (GetWatchtowerFolder cfg)) (world t))
                 (log_Println "Checking for manual rewards tree generation requests..." t)))
    as (? & ? & ? & ?).
Qed.

(** C10. If the first request file of the directory has an index that fails
    to parse, a poll made while no generation is running returns an error
    without deleting that file and whatever the entries after it are; so on
    every later poll over the unchanged directory the same file is met
    first, the same error is returned and no request is ever served. *)
Theorem malformed_request_blocks cfg t f err :
  isRunning t = false →
  readDirError (world t) = None →
  find (isRequest cfg) (requests (world t)) = Some f →
  ParseUint cfg (TrimSuffix (Name f) (RegenerateRewardsTreeRequestSuffix cfg)) = Err err →
  let e := "Error parsing index from [" +:+ Name f +:+ "]: " +:+ err in
  (run cfg t).1 = Some e
  ∧ requests (world (run cfg t).2) = requests (world t)
  ∧ journal (world (run cfg t).2)
    = journal (world t) ++ [SysReadDir (GetWatchtowerFolder cfg)]
  ∧ started (run cfg t).2 = started t
  ∧ isRunning (run cfg t).2 = false
  ∧ (∀ entries,
       find (isRequest cfg) entries = Some f →
       (run cfg (set_requests entries t)).1 = Some e)
  ∧ (∀ n,
       (run cfg (polls cfg n t)).1 = Some e
       ∧ requests (world (polls cfg n t)) = requests (world t)
       ∧ started (polls cfg n t) = started t
       ∧ isRunning (polls cfg n t) = false).
Proof.
  intros Hidle Hdir Hfind Hparse e.
  split_and!.
  - by rewrite (run_malformed _ _ _ _ Hidle Hdir Hfind Hparse).
  - by rewrite (run_malformed _ _ _ _ Hidle Hdir Hfind Hparse).
  - by rewrite (run_malformed _ _ _ _ Hidle Hdir Hfind Hparse).
  - by rewrite (run_malformed _ _ _ _ Hidle Hdir Hfind Hparse).
  - by rewrite (run_malformed _ _ _ _ Hidle Hdir Hfind Hparse).
  - intros entries Hentries.
    by rewrite (run_malformed cfg (set_requests entries t) f err).
  - intros n.
    destruct (polls_malformed cfg f err n t) as (Hi & Hd & Hr & Hs); [done..|].
    split_and!; [|done..].
    rewrite (run_malformed cfg (polls cfg n t) f err); try done.
    by rewrite Hr.
Qed.

Lemma malformed_request_blocks_witness :
  (run sampleConfig malformedFirst).1
  = Some "Error parsing index from [-1.request]: strconv.ParseUint: parsing -1: invalid syntax"
  ∧ started (polls sampleConfig 3 malformedFirst) = [].
Proof.
  pose proof (malformed_request_blocks sampleConfig malformedFirst
                (regular "-1.request")
                "strconv.ParseUint: parsing -1: invalid syntax"
                eq_refl eq_refl eq_refl eq_refl) as (H1 & _ & _ & _ & _ & _ & H2).
  split; [exact H1|]. exact (proj1 (proj2 (proj2 (H2 3%nat)))).
Defined.

(** C2, as stated, fails in three ways: a request with a malformed index
    stands before the well-formed one; the operating system refuses the
    removal; a generation is running. In each, the request [5.request] is
    there and is not served. *)
Lemma servesFirstServable_fails :
  ¬ servesFirstServable sampleConfig malformedFirst
  ∧ ¬ servesFirstServable sampleConfig undeletable
  ∧ ¬ servesFirstServable sampleConfig busy.
Proof.
  split_and!; intros H;
    destruct (H eq_refl (regular "5.request") 5 eq_refl eq_refl) as (_ & _ & Hs);
    vm_compute in Hs; discriminate.
Qed.

(** C2, amended. A poll made while no generation is running, over a
    directory whose first request file has an index that parses and can be
    removed, removes exactly that file, starts the generation for its index
    exactly once and returns [nil], with no other call into the filesystem
    than the enumeration and that removal. *)
Theorem run_serves_first_request cfg t f index :
  isRunning t = false →
  readDirError (world t) = None →
  find (isRequest cfg) (requests (world t)) = Some f →
  ParseUint cfg (TrimSuffix (Name f) (RegenerateRewardsTreeRequestSuffix cfg)) = Ok index →
  removeError (world t) !! Join (GetWatchtowerFolder cfg) (Name f) = None →
  (run cfg t).1 = None
  ∧ requests (world (run cfg t).2)
    = filter (λ g, Name g ≠ Name f) (requests (world t))
  ∧ journal (world (run cfg t).2)
    = journal (world t)
      ++ [SysReadDir (GetWatchtowerFolder cfg);
          SysRemove (Join (GetWatchtowerFolder cfg) (Name f))]
  ∧ started (run cfg t).2 = started t ++ [index]
  ∧ isRunning (run cfg t).2 = true.
Proof.
  intros Hidle Hdir Hfind Hparse Hrm. rewrite (run_idle _ _ Hidle). cbn zeta.
  unfold ReadDir. cbn [log_Println world]. rewrite Hdir, Hfind.
  rewrite (scanRequests_request _ _ _ (find_isRequest _ _ _ Hfind)), Hparse.
  cbn zeta. cbn [record removeError]. rewrite Hrm. cbn.
  split_and!; try done. by rewrite <-app_assoc.
Qed.

Lemma run_serves_first_request_witness :
  let t := idle (worldOf [regular "5.request"; regular "6.request"]) in
  (run sampleConfig t).1 = None
  ∧ requests (world (run sampleConfig t).2) = [regular "6.request"]
  ∧ started (run sampleConfig t).2 = [5].
Proof.
  destruct (run_serves_first_request sampleConfig
              (idle (worldOf [regular "5.request"; regular "6.request"]))
              (regular "5.request") 5 eq_refl eq_refl eq_refl eq_refl eq_refl)
    as (H1 & H2 & _ & H4 & _).
  split_and!; [exact H1|exact H2|exact H4].
Defined.

(** ** The generation *)

(** Projections of a state built by the task's updates. *)
Lemma isRunning_log l t : isRunning (log_Println l t) = isRunning t.
Proof. done. Qed.
Lemma errLog_log l t : errLog (log_Println l t) = errLog t.
Proof. done. Qed.
Lemma world_log l t : world (log_Println l t) = world t.
Proof. done. Qed.
Lemma started_log l t : started (log_Println l t) = started t.
Proof. done. Qed.
Lemma log_log l t : log (log_Println l t) = log t ++ [l].
Proof. done. Qed.
Lemma isRunning_handleError e t : isRunning (handleError e t) = false.
Proof. done. Qed.
Lemma errLog_handleError e t :
  errLog (handleError e t)
  = errLog t ++ [e; "*** Rewards tree generation failed. ***"].
Proof. unfold handleError. cbn. by rewrite <-app_assoc. Qed.
Lemma world_handleError e t : world (handleError e t) = world t.
Proof. done. Qed.
Lemma started_handleError e t : started (handleError e t) = started t.
Proof. done. Qed.
Lemma log_handleError e t : log (handleError e t) = log t.
Proof. done. Qed.
Lemma errLog_set_world w t : errLog (set_world w t) = errLog t.
Proof. done. Qed.
Lemma started_set_world w t : started (set_world w t) = started t.
Proof. done. Qed.
Lemma world_set_world w t : world (set_world w t) = w.
Proof. done. Qed.
Lemma log_set_world w t : log (set_world w t) = log t.
Proof. done. Qed.
Lemma isRunning_set_isRunning b t : isRunning (set_isRunning b t) = b.
Proof. done. Qed.
Lemma errLog_set_isRunning b t : errLog (set_isRunning b t) = errLog t.
Proof. done. Qed.
Lemma world_set_isRunning b t : world (set_isRunning b t) = world t.
Proof. done. Qed.
Lemma started_set_isRunning b t : started (set_isRunning b t) = started t.
Proof. done. Qed.
Lemma log_set_isRunning b t : log (set_isRunning b t) = log t.
Proof. done. Qed.

Lemma logged_lines_foldl (lines : list string) (t : State) :
  isRunning (foldl (λ t line, log_Println line t) t lines) = isRunning t
  ∧ log (foldl (λ t line, log_Println line t) t lines) = log t ++ lines
  ∧ errLog (foldl (λ t line, log_Println line t) t lines) = errLog t
  ∧ world (foldl (λ t line, log_Println line t) t lines) = world t
  ∧ started (foldl (λ t line, log_Println line t) t lines) = started t.
Proof.
  revert t. induction lines as [|l lines IH]; intros t; cbn [foldl].
  - by rewrite app_nil_r.
  - destruct (IH (log_Println l t)) as (-> & -> & -> & -> & ->).
    cbn. by rewrite <-app_assoc.
Qed.

Lemma isRunning_lines lines t :
  isRunning (foldl (λ t line, log_Println line t) t lines) = isRunning t.
Proof. apply logged_lines_foldl. Qed.
Lemma log_lines lines t :
  log (foldl (λ t line, log_Println line t) t lines) = log t ++ lines.
Proof. apply logged_lines_foldl. Qed.
Lemma errLog_lines lines t :
  errLog (foldl (λ t line, log_Println line t) t lines) = errLog t.
Proof. apply logged_lines_foldl. Qed.
Lemma world_lines lines t :
  world (foldl (λ t line, log_Println line t) t lines) = world t.
Proof. apply logged_lines_foldl. Qed.
Lemma started_lines lines t :
  started (foldl (λ t line, log_Println line t) t lines) = started t.
Proof. apply logged_lines_foldl. Qed.

Ltac state_simpl :=
  rewrite ?isRunning_handleError, ?errLog_handleError, ?world_handleError,
    ?started_handleError, ?log_handleError,
    ?isRunning_set_isRunning, ?errLog_set_isRunning, ?world_set_isRunning,
    ?started_set_isRunning, ?log_set_isRunning,
    ?errLog_set_world, ?started_set_world, ?world_set_world, ?log_set_world,
    ?isRunning_log, ?errLog_log, ?world_log, ?started_log, ?log_log,
    ?isRunning_lines, ?errLog_lines, ?world_lines, ?started_lines, ?log_lines.

(** The text of a line printed on [t.log] does not matter to what
    follows: name it. *)
Ltac hide_lines :=
  repeat match goal with
         | |- context [log_Println ?l _] =>
             tryif is_var l then fail
             else (let line := fresh "line" in generalize l; intros line)
         | |- context [foldl _ _ ?ls] =>
             tryif is_var ls then fail
             else (let lines := fresh "lines" in generalize ls; intros lines)
         end.

Section generation_facts.
Context {NodeRewards NetworkRewards Tree Wrapper : Type}.
Variable cfg : Config.
Variable svc : Services NodeRewards NetworkRewards Tree Wrapper.
Variable index : Z.

(** What a failed generation leaves: two lines on the error log, the flag
    down, every file but the artifact's own as it was. *)
Lemma generation_fails t msg :
  fails cfg svc index (world t) msg →
  let t' := generateRewardsTree cfg svc index t in
  errLog t'
  = errLog t ++ [intervalPrefix index +:+ msg;
                 "*** Rewards tree generation failed. ***"]
  ∧ isRunning t' = false
  ∧ (∀ path, path ≠ GetRewardsTreePath cfg index →
             disk (world t') !! path = disk (world t) !! path)
  ∧ started t' = started t
  ∧ (journal (world t') = journal (world t)
     ∨ ∃ data,
         journal (world t')
         = journal (world t) ++ [SysWriteFile (GetRewardsTreePath cfg index) data 420]).
Proof.
  intros Hfails. cbn zeta. unfold generateRewardsTree. cbn zeta. hide_lines.
  destruct Hfails;
    repeat match reverse goal with
           | H : _ = Ok _ |- _ => rewrite H; clear H
           | H : _ = Err _ |- _ => rewrite H; clear H
           end.
  all: hide_lines.
  all: try (repeat state_simpl; split_and!; auto; done).
  all: case_bool_decide.
  all: try (repeat state_simpl; split_and!; auto; done).
  all: unfold WriteFile; repeat state_simpl.
  all: match goal with H : _ !! _ = Some _ |- _ => rewrite H end.
  all: destruct (partialWrite (world t) !! GetRewardsTreePath cfg index).
  all: repeat state_simpl; cbn [disk journal record store]; split_and!; eauto.
  all: intros path Hpath; by rewrite lookup_insert_ne.
Qed.

(** A generation that fails before it comes to write the artifact makes no
    call into the filesystem and leaves the disk as it was. *)
Lemma generation_fails_early t msg :
  fails cfg svc index (world t) msg →
  (∀ data err, ¬ writeRefused cfg svc index (world t) data err) →
  let t' := generateRewardsTree cfg svc index t in
  disk (world t') = disk (world t) ∧ journal (world t') = journal (world t).
Proof.
  intros Hfails Hearly. cbn zeta.
  destruct Hfails.
  8:{ exfalso. eapply Hearly. unfold writeRefused. repeat eexists; eassumption. }
  all: unfold generateRewardsTree; cbn zeta; hide_lines.
  all: repeat match reverse goal with
           | H : _ = Ok _ |- _ => rewrite H; clear H
           | H : _ = Err _ |- _ => rewrite H; clear H
           end.
  all: hide_lines.
  all: try (repeat state_simpl; split_and!; auto; done).
  all: case_bool_decide.
  all: repeat state_simpl; split_and!; auto; done.
Qed.

(** A generation whose write is refused has made that one call, and the
    artifact's file is as it was when the open was refused, or holds the
    bytes written before the failure. *)
Lemma generation_write_refused t data err :
  writeRefused cfg svc index (world t) data err →
  let t' := generateRewardsTree cfg svc index t in
  let path := GetRewardsTreePath cfg index in
  journal (world t') = journal (world t) ++ [SysWriteFile path data 420]
  ∧ disk (world t')
    = match partialWrite (world t) !! path with
      | None => disk (world t)
      | Some n => <[path := String.substring 0 n data]> (disk (world t))
      end.
Proof.
  intros (n & ev & c & hdr & nodes & nets & invalid & tree
          & H1 & H2 & H3 & H4 & H5 & H6 & H7 & H8).
  cbn zeta. unfold generateRewardsTree. cbn zeta.
  rewrite H1, H2, H3, H4, H5, H6, H7.
  match goal with
  | |- context [log_Println ?l (if ?b then log_Println ?x ?u else log_Println ?y ?u)] =>
      replace (if b then log_Println x u else log_Println y u)
        with (log_Println (if b then x else y) u) by (by destruct b)
  end.
  hide_lines. unfold WriteFile. repeat state_simpl. rewrite H8.
  destruct (partialWrite (world t) !! GetRewardsTreePath cfg index);
    repeat state_simpl; cbn [disk journal record store]; done.
Qed.

(** What a generation whose stages all succeed leaves: the artifact on
    disk by one call of [ioutil.WriteFile] on its final path, the flag
    down, nothing on the error log, and on the log the line that tells
    whether the local root is the canonical one. *)
Lemma generation_succeeds t ev tree data :
  succeeds cfg svc index (world t) ev tree data →
  let t' := generateRewardsTree cfg svc index t in
  let path := GetRewardsTreePath cfg index in
  errLog t' = errLog t
  ∧ isRunning t' = false
  ∧ started t' = started t
  ∧ disk (world t') = <[path := data]> (disk (world t))
  ∧ journal (world t') = journal (world t) ++ [SysWriteFile path data 420]
  ∧ (if bool_decide (BytesToHash (Root svc tree) ≠ MerkleRoot ev)
     then rootMismatchWarning (intervalPrefix index) (BytesToHash (Root svc tree)) (MerkleRoot ev)
     else rootMatchNotice (intervalPrefix index) (Root svc tree))
    ∈ log t'.
Proof.
  intros (n & c & hdr & nodes & nets & invalid
          & H1 & H2 & H3 & H4 & H5 & H6 & H7 & H8).
  cbn zeta. unfold generateRewardsTree. cbn zeta.
  rewrite H1, H2, H3, H4, H5, H6, H7.
  set (verdict := if bool_decide (BytesToHash (Root svc tree) ≠ MerkleRoot ev)
                  then rootMismatchWarning (intervalPrefix index)
                         (BytesToHash (Root svc tree)) (MerkleRoot ev)
                  else rootMatchNotice (intervalPrefix index) (Root svc tree)).
  match goal with
  | |- context [log_Println ?l (if ?b then log_Println ?x ?u else log_Println ?y ?u)] =>
      replace (if b then log_Println x u else log_Println y u)
        with (log_Println verdict u) by (subst verdict; by destruct b)
  end.
  hide_lines. unfold WriteFile. repeat state_simpl. rewrite H8.
  repeat state_simpl. cbn [disk journal record].
  split_and!; try done.
  rewrite !elem_of_app, !list_elem_of_singleton. tauto.
Qed.

(** Every generation either succeeds at every stage or fails at one. *)
Lemma generation_outcome w :
  (∃ ev tree data, succeeds cfg svc index w ev tree data)
  ∨ (∃ msg, fails cfg svc index w msg).
Proof.
  destruct (GetEventLogInterval svc) as [n|e] eqn:H1;
    [|right; eexists; by eapply fails_interval].
  destruct (GetRewardSnapshotEvent svc index (int64 n)) as [ev|e] eqn:H2;
    [|right; eexists; by eapply fails_event].
  destruct (GetEth2Config svc) as [c|e] eqn:H3;
    [|right; eexists; by eapply fails_beacon].
  destruct (GetELBlockHeaderForTime svc (blockTimeOf ev c)) as [hdr|e] eqn:H4;
    [|right; eexists; by eapply fails_block].
  destruct (CalculateRplRewards svc hdr
              (Time_Sub (IntervalEndTime ev) (IntervalStartTime ev)))
    as [[[nodes nets] invalid]|e] eqn:H5;
    [|right; eexists; by eapply fails_rewards].
  destruct (GenerateMerkleTree svc nodes) as [tree|e] eqn:H6;
    [|right; eexists; by eapply fails_tree].
  destruct (json_Marshal svc (GenerateTreeJson svc (Root svc tree) nodes nets))
    as [data|e] eqn:H7;
    [|right; eexists; by eapply fails_json].
  destruct (writeError w !! GetRewardsTreePath cfg index) as [e|] eqn:H8;
    [right; eexists; by eapply fails_write|].
  left. exists ev, tree, data, n, c, hdr, nodes, nets, invalid. done.
Qed.

(** The canonical root of the snapshot event has no part in whether the
    stages succeed nor in the document. *)
Lemma succeeds_withCanonicalRoot canonical w ev tree data :
  succeeds cfg svc index w ev tree data →
  succeeds cfg (withCanonicalRoot svc canonical) index w
    {| Block := Block ev; IntervalStartTime := IntervalStartTime ev;
       IntervalEndTime := IntervalEndTime ev; MerkleRoot := canonical |}
    tree data.
Proof.
  intros (n & c & hdr & nodes & nets & invalid
          & H1 & H2 & H3 & H4 & H5 & H6 & H7 & H8).
  exists n, c, hdr, nodes, nets, invalid. cbn.
  rewrite H2. done.
Qed.

End generation_facts.

Lemma sample_succeeds canonical w :
  writeError w !! treePath7 = None →
  succeeds sampleConfig (sampleServices canonical) 7 w (sampleEvent canonical) rootA
    "{root: 0x2a2a2a2a2a2a2a2a2a2a2a2a2a2a2a2a2a2a2a2a2a2a2a2a2a2a2a2a2a2a2a2a}".
Proof.
  intros Hw.
  exists 1000, {| GenesisTime := 1606824023; SecondsPerSlot := 12 |},
    {| Number := 15500000 |}, [("0xNode", 100)], [(0, 100)], [].
  split_and!; try reflexivity. exact Hw.
Qed.

(** C4, as stated, fails at the write: [ioutil.WriteFile] opens the
    artifact's own path with [O_TRUNC] before it writes, so a write that
    fails after the open leaves a truncated file there. Here the artifact
    of an earlier generation is replaced by the first nine bytes of the
    new document. *)
Lemma failureWritesNothing_fails :
  ¬ failureWritesNothing sampleConfig (sampleServices rootA) 7 tornWrite.
Proof.
  intros H.
  destruct (H (" Error saving file to " +:+ treePath7 +:+ ": "
               +:+ "write " +:+ treePath7 +:+ ": no space left on device"))
    as (_ & _ & Hdisk).
  { eapply (fails_write sampleConfig (sampleServices rootA) 7 (world tornWrite));
      reflexivity. }
  apply (f_equal (λ d : gmap string string, d !! treePath7)) in Hdisk.
  vm_compute in Hdisk. discriminate Hdisk.
Qed.

(** C4, amended. A failure at any stage of the generation ends in
    [handleError]: the error goes to the error log behind the interval's
    prefix, followed by the line that the generation failed; [isRunning]
    is false afterwards; and no file other than the artifact's own is
    touched. When the failure comes before the write (the snapshot event
    that is not found is the case [fails_event]) no call into the
    filesystem is made and the disk is as it was, so no artifact is
    written. When it is the write that is refused, the artifact's file is
    as it was if it could not be opened, and otherwise holds the bytes of
    the document written before the failure, in place of what it held. *)
Theorem generation_failure_caught {NodeRewards NetworkRewards Tree Wrapper}
    cfg (svc : Services NodeRewards NetworkRewards Tree Wrapper) index t msg :
  fails cfg svc index (world t) msg →
  let t' := generateRewardsTree cfg svc index t in
  let path := GetRewardsTreePath cfg index in
  errLog t'
  = errLog t ++ [intervalPrefix index +:+ msg;
                 "*** Rewards tree generation failed. ***"]
  ∧ isRunning t' = false
  ∧ started t' = started t
  ∧ (∀ p, p ≠ path → disk (world t') !! p = disk (world t) !! p)
  ∧ ((∀ data err, ¬ writeRefused cfg svc index (world t) data err) →
     disk (world t') = disk (world t) ∧ journal (world t') = journal (world t))
  ∧ (∀ data err,
       writeRefused cfg svc index (world t) data err →
       journal (world t') = journal (world t) ++ [SysWriteFile path data 420]
       ∧ disk (world t')
         = match partialWrite (world t) !! path with
           | None => disk (world t)
           | Some n => <[path := String.substring 0 n data]> (disk (world t))
           end).
Proof.
  intros Hfails. destruct (generation_fails cfg svc index t msg Hfails)
    as (H1 & H2 & H3 & H4 & _).
  cbn zeta. split_and!; try done.
  - intros Hearly. by apply (generation_fails_early cfg svc index t msg).
  - intros data err Hrefused.
    exact (generation_write_refused cfg svc index t data err Hrefused).
Qed.

Lemma generation_failure_caught_witness :
  let t' := generateRewardsTree sampleConfig (sampleServices rootA) 8 busy in
  errLog t'
  = ["[Interval 8 Tree] Error getting event for interval 8: reward snapshot for interval 8 not found";
     "*** Rewards tree generation failed. ***"]
  ∧ isRunning t' = false
  ∧ started t' = []
  ∧ disk (world t') = ∅
  ∧ journal (world t') = [].
Proof.
  destruct (generation_failure_caught sampleConfig (sampleServices rootA) 8 busy
              " Error getting event for interval 8: reward snapshot for interval 8 not found"
              (fails_event sampleConfig (sampleServices rootA) 8 (world busy) 1000
                 "reward snapshot for interval 8 not found" eq_refl eq_refl))
    as (H1 & H2 & H3 & _ & H5 & _).
  destruct H5 as [H5 H6].
  { intros data err (n & ev & _ & _ & _ & _ & _ & _ & _ & Hev & _).
    vm_compute in Hev. discriminate Hev. }
  cbn zeta. split_and!; [exact H1|exact H2|exact H3|exact H5|exact H6].
Defined.

(** C3, as stated, fails: whatever field of the written document is read
    as [matchesCanonical], it cannot be false when the roots differ and
    true when they are equal, since the document is the same in both. *)
Lemma no_matchesCanonical_field :
  ¬ ∃ matchesCanonical : string → bool,
      ∀ canonical,
        flagsCanonical sampleConfig (sampleServices canonical) 7 matchesCanonical
          (idle (worldOf [])).
Proof.
  intros [mc H].
  destruct (H rootA _ _ _ (sample_succeeds rootA (worldOf []) eq_refl))
    as (wa & Ha & Hma).
  destruct (H rootB _ _ _ (sample_succeeds rootB (worldOf []) eq_refl))
    as (wb & Hb & Hmb).
  vm_compute in Ha. vm_compute in Hb.
  injection Ha as <-. injection Hb as <-.
  vm_compute in Hma. vm_compute in Hmb. congruence.
Qed.

(** C3, amended. When every stage succeeds the artifact is serialized and
    written whether or not the local root is the canonical one, and nothing
    goes to the error log; a difference is told by a warning on the log, an
    equality by a notice, and the disk is the same whatever the canonical
    root is: the document carries no trace of the comparison. *)
Theorem root_mismatch_not_fatal {NodeRewards NetworkRewards Tree Wrapper}
    cfg (svc : Services NodeRewards NetworkRewards Tree Wrapper) index t
    ev tree data :
  succeeds cfg svc index (world t) ev tree data →
  let t' := generateRewardsTree cfg svc index t in
  errLog t' = errLog t
  ∧ disk (world t') !! GetRewardsTreePath cfg index = Some data
  ∧ (BytesToHash (Root svc tree) ≠ MerkleRoot ev →
     rootMismatchWarning (intervalPrefix index) (BytesToHash (Root svc tree))
       (MerkleRoot ev) ∈ log t')
  ∧ (BytesToHash (Root svc tree) = MerkleRoot ev →
     rootMatchNotice (intervalPrefix index) (Root svc tree) ∈ log t')
  ∧ (∀ canonical,
       disk (world (generateRewardsTree cfg (withCanonicalRoot svc canonical) index t))
       = disk (world t')).
Proof.
  intros Hs. cbn zeta.
  destruct (generation_succeeds cfg svc index t ev tree data Hs)
    as (He & _ & _ & Hd & _ & Hl).
  split_and!.
  - done.
  - rewrite Hd. apply lookup_insert_eq.
  - intros Hne. by rewrite bool_decide_true in Hl.
  - intros Heq. by rewrite bool_decide_false in Hl by (by intros ?).
  - intros canonical.
    destruct (generation_succeeds cfg (withCanonicalRoot svc canonical) index t _ tree data
                (succeeds_withCanonicalRoot cfg svc index canonical _ _ _ _ Hs))
      as (_ & _ & _ & Hd' & _).
    by rewrite Hd, Hd'.
Qed.

Lemma root_mismatch_not_fatal_witness :
  let t' := generateRewardsTree sampleConfig (sampleServices rootB) 7 (idle (worldOf [])) in
  errLog t' = []
  ∧ disk (world t') !! treePath7
    = Some "{root: 0x2a2a2a2a2a2a2a2a2a2a2a2a2a2a2a2a2a2a2a2a2a2a2a2a2a2a2a2a2a2a2a2a}"
  ∧ rootMismatchWarning "[Interval 7 Tree]" rootA rootB ∈ log t'.
Proof.
  destruct (root_mismatch_not_fatal sampleConfig (sampleServices rootB) 7
              (idle (worldOf [])) _ _ _ (sample_succeeds rootB (worldOf []) eq_refl))
    as (H1 & H2 & H3 & _).
  split_and!; [exact H1|exact H2|].
  apply H3. vm_compute. discriminate.
Defined.

(** C7, as stated, fails: the generation for interval 7 writes the document
    to the artifact's own path, and renames nothing. *)
Lemma writesThenRenames_fails :
  ¬ writesThenRenames sampleConfig (sampleServices rootA) 7 (idle (worldOf [])).
Proof.
  intros H.
  destruct (H _ _ _ (sample_succeeds rootA (worldOf []) eq_refl))
    as (tmp & perm & _ & Hj).
  vm_compute in Hj. discriminate.
Qed.

(** C7, amended. The artifact is persisted by one call of
    [ioutil.WriteFile], with mode 0644, on the final path derived from the
    interval index. Whatever its outcome, the generation makes no other
    call into the filesystem than at most that one: no temporary file is
    written and nothing is renamed. *)
Theorem artifact_written_in_place {NodeRewards NetworkRewards Tree Wrapper}
    cfg (svc : Services NodeRewards NetworkRewards Tree Wrapper) index t :
  let t' := generateRewardsTree cfg svc index t in
  let path := GetRewardsTreePath cfg index in
  (∀ ev tree data,
     succeeds cfg svc index (world t) ev tree data →
     journal (world t') = journal (world t) ++ [SysWriteFile path data 420]
     ∧ disk (world t') = <[path := data]> (disk (world t)))
  ∧ (journal (world t') = journal (world t)
     ∨ ∃ data, journal (world t') = journal (world t) ++ [SysWriteFile path data 420]).
Proof.
  cbn zeta. split.
  - intros ev tree data Hs.
    destruct (generation_succeeds cfg svc index t ev tree data Hs)
      as (_ & _ & _ & Hd & Hj & _).
    done.
  - destruct (generation_outcome cfg svc index (world t))
      as [(ev & tree & data & Hs)|[msg Hf]].
    + destruct (generation_succeeds cfg svc index t ev tree data Hs)
        as (_ & _ & _ & _ & Hj & _).
      right. by exists data.
    + by destruct (generation_fails cfg svc index t msg Hf) as (_ & _ & _ & _ & Hj).
Qed.

Lemma artifact_written_in_place_witness :
  let t' := generateRewardsTree sampleConfig (sampleServices rootA) 7 (idle (worldOf [])) in
  journal (world t')
  = [SysWriteFile treePath7
       "{root: 0x2a2a2a2a2a2a2a2a2a2a2a2a2a2a2a2a2a2a2a2a2a2a2a2a2a2a2a2a2a2a2a2a}" 420]
  ∧ disk (world t')
    = {[ treePath7 := "{root: 0x2a2a2a2a2a2a2a2a2a2a2a2a2a2a2a2a2a2a2a2a2a2a2a2a2a2a2a2a2a2a2a2a}" ]}.
Proof.
  exact (proj1 (artifact_written_in_place sampleConfig (sampleServices rootA) 7
                  (idle (worldOf [])))
           _ _ _ (sample_succeeds rootA (worldOf []) eq_refl)).
Defined.

(** ** The block time *)

Lemma int64_small z : - 2 ^ 63 ≤ z < 2 ^ 63 → int64 z = z.
Proof. intros H. unfold int64. rewrite Z.mod_small; lia. Qed.

Lemma uint64_small z : 0 ≤ z < 2 ^ 64 → uint64 z = z.
Proof. intros H. unfold uint64. by rewrite Z.mod_small. Qed.

(** In range, the block time is the genesis time plus the seconds of the
    slots. *)
Lemma blockTimeOf_in_range ev c :
  0 ≤ Block ev →
  0 ≤ SecondsPerSlot c →
  0 ≤ GenesisTime c →
  Block ev * SecondsPerSlot c * 1000000000 < 2 ^ 63 →
  GenesisTime c + Block ev * SecondsPerSlot c < 2 ^ 63 - unixToInternal →
  blockTimeOf ev c
  = {| ext := GenesisTime c + Block ev * SecondsPerSlot c + unixToInternal;
       nsec := 0 |}.
Proof.
  intros Hb Hs Hg Hd Ht.
  unfold blockTimeOf, big_Uint64, time_Unix, Second, unixToInternal in *.
  set (b := Block ev) in *. set (s := SecondsPerSlot c) in *.
  set (g := GenesisTime c) in *.
  assert (0 ≤ b * s) by nia.
  assert (uint64 (Z.abs b) * s = b * s) as ->.
  { destruct (decide (s = 0)) as [->|]; [lia|].
    rewrite Z.abs_eq by lia. rewrite uint64_small; [done|nia]. }
  rewrite (uint64_small (b * s)) by lia.
  rewrite (int64_small (b * s)) by lia.
  rewrite (int64_small (b * s * 1000000000)) by lia.
  rewrite (int64_small g) by lia.
  rewrite (int64_small (g + 62135596800)) by lia.
  unfold Time_Add. cbn [nsec ext].
  rewrite Z.quot_mul, Z.rem_mul by lia.
  replace (0 + 0 >=? 1000000000) with false by reflexivity.
  replace (0 + 0 <? 0) with false by reflexivity.
  unfold addSec. cbn [nsec ext].
  rewrite (int64_small (g + 62135596800 + b * s)) by lia.
  rewrite bool_decide_true by lia.
  f_equal. lia.
Qed.

(** C6, as stated, fails: eight hundred million slots of twelve seconds are
    more nanoseconds than an [int64] holds, the [time.Duration] wraps and
    the block time falls before genesis. *)
Lemma exactBlockTime_fails : ¬ exactBlockTime farEvent mainnet.
Proof. unfold exactBlockTime. vm_compute. discriminate. Qed.

(** C6, amended. For a snapshot event whose slots' time in nanoseconds
    fits a [time.Duration] (block number times seconds per slot times
    [10^9] below [2^63]) and whose block time fits a [time.Time], the time
    for which the generation looks up the execution block is exactly the
    genesis time plus the block number times the seconds per slot, in
    whole seconds; and the generation looks the block up at that time and
    at no other. *)
Theorem blockTime_exact {NodeRewards NetworkRewards Tree Wrapper}
    cfg (svc : Services NodeRewards NetworkRewards Tree Wrapper) index t
    n ev c :
  GetEventLogInterval svc = Ok n →
  GetRewardSnapshotEvent svc index (int64 n) = Ok ev →
  GetEth2Config svc = Ok c →
  0 ≤ Block ev →
  0 ≤ SecondsPerSlot c →
  0 ≤ GenesisTime c →
  Block ev * SecondsPerSlot c * 1000000000 < 2 ^ 63 →
  GenesisTime c + Block ev * SecondsPerSlot c < 2 ^ 63 - unixToInternal →
  let seconds := GenesisTime c + Block ev * SecondsPerSlot c in
  blockTimeOf ev c = time_Unix seconds
  ∧ Time_Unix (blockTimeOf ev c) = seconds
  ∧ nsec (blockTimeOf ev c) = 0
  ∧ generateRewardsTree cfg svc index t
    = generateRewardsTree cfg (lookingUpOnly svc (time_Unix seconds)) index t.
Proof.
  intros H1 H2 H3 Hb Hs Hg Hd Ht seconds.
  assert (0 ≤ Block ev * SecondsPerSlot c) by nia.
  assert (blockTimeOf ev c = time_Unix seconds) as Heq.
  { rewrite blockTimeOf_in_range by done.
    unfold time_Unix, seconds, unixToInternal in *.
    rewrite int64_small by lia. f_equal. }
  split_and!.
  - done.
  - rewrite Heq. unfold Time_Unix, time_Unix, seconds, unixToInternal in *. cbn [ext].
    rewrite (int64_small (_ + 62135596800)) by lia.
    rewrite int64_small by lia. lia.
  - by rewrite Heq.
  - unfold generateRewardsTree. cbn zeta.
    cbn [lookingUpOnly GetEventLogInterval GetRewardSnapshotEvent GetEth2Config
         GetELBlockHeaderForTime CalculateRplRewards GenerateMerkleTree Root
         GenerateTreeJson json_Marshal Time_String calculationTook treeTook].
    rewrite H1, H2, H3, Heq. reflexivity.
Qed.

Lemma blockTime_exact_witness :
  Time_Unix (blockTimeOf (sampleEvent rootA) mainnet) = 1606824023 + 4800000 * 12.
Proof.
  exact (proj1 (proj2
    (blockTime_exact sampleConfig (sampleServices rootA) 7 (idle (worldOf []))
       1000 (sampleEvent rootA) mainnet eq_refl eq_refl eq_refl
       ltac:(by vm_compute) ltac:(by vm_compute) ltac:(by vm_compute)
       ltac:(by vm_compute) ltac:(by vm_compute)))).
Defined.

(** ** The wallet purge *)

Lemma deleteValidatorKeys_actions pubkeys :
  (wallet.deleteValidatorKeys pubkeys).2 = wallet.DeleteValidatorKey <$> pubkeys.
Proof.
  unfold wallet.deleteValidatorKeys.
  enough (∀ m done,
            (foldl (λ '(pubkeyMap, done) pubkey,
                      (<[pubkey := true]> pubkeyMap,
                       done ++ [wallet.DeleteValidatorKey pubkey]))
               (m, done) pubkeys).2
            = done ++ (wallet.DeleteValidatorKey <$> pubkeys)) as H by apply H.
  induction pubkeys as [|pk pubkeys IH]; intros m done; cbn.
  - by rewrite app_nil_r.
  - rewrite IH. by rewrite <-app_assoc.
Qed.

(** C9. With its services up and the node's public keys at hand, if the
    custom key directory does not exist, or is not a directory, or is a
    directory without entries, [purge] returns its response and a [nil]
    error after deleting the node's validator keys, and does nothing else:
    it removes no file, does not delete the wallet nor the password, and
    does not restart the validator client. *)
Theorem purge_without_custom_keys env pubkeys :
  wallet.servicesUp env →
  wallet.GetNodeValidatingMinipoolPubkeys env = Ok pubkeys →
  wallet.noCustomKeys env →
  wallet.purge env
  = (wallet.Return (Ok ()), wallet.DeleteValidatorKey <$> pubkeys).
Proof.
  intros (H1 & H2 & H3 & H4 & H5 & H6 & H7) Hkeys Hdir.
  unfold wallet.purge. rewrite H1, H2, H3, H4, H5, H6, H7, Hkeys.
  pose proof (deleteValidatorKeys_actions pubkeys) as Hdone.
  destruct (wallet.deleteValidatorKeys pubkeys) as [pubkeyMap done].
  cbn in Hdone. subst done.
  destruct Hdir as [[err ->]|[(info & -> & Hinfo)|(info & -> & Hinfo & Hfiles)]].
  - done.
  - by rewrite Hinfo.
  - by rewrite Hinfo, Hfiles.
Qed.

Lemma purge_without_custom_keys_witness :
  wallet.purge wallet.sampleEnv
  = (wallet.Return (Ok ()),
     [wallet.DeleteValidatorKey "0xa1"; wallet.DeleteValidatorKey "0xb2"]).
Proof.
  apply (purge_without_custom_keys wallet.sampleEnv ["0xa1"; "0xb2"]).
  - by repeat split.
  - reflexivity.
  - left. by eexists.
Defined.

(** ** The Merkle tree builder *)

Global Instance byAddress_transitive : Transitive MerkleSpec.byAddress.
Proof. intros x y z. unfold MerkleSpec.byAddress. lia. Qed.

Global Instance byAddress_total : Total MerkleSpec.byAddress.
Proof. intros x y. unfold MerkleSpec.byAddress. lia. Qed.

(** The canonical order of the leaves of a distribution does not depend on
    the order its entries are met in. *)
Lemma canonicalLeaves_order (D : gmap N Z) entries1 entries2 :
  entries1 ≡ₚ map_to_list D →
  entries2 ≡ₚ map_to_list D →
  MerkleSpec.canonicalLeaves entries1 = MerkleSpec.canonicalLeaves entries2.
Proof.
  intros H1 H2. unfold MerkleSpec.canonicalLeaves.
  apply (Sorted_unique_strong MerkleSpec.byAddress).
  - intros [a1 v1] [a2 v2] Hin1 Hin2 Hle1 Hle2.
    unfold MerkleSpec.byAddress in Hle1, Hle2. cbn in Hle1, Hle2.
    assert (a1 = a2) as -> by lia. f_equal.
    rewrite merge_sort_Permutation in Hin1, Hin2.
    unfold MerkleSpec.leafSet in Hin1, Hin2.
    apply list_elem_of_filter in Hin1 as [_ Hin1].
    apply list_elem_of_filter in Hin2 as [_ Hin2].
    rewrite H1 in Hin1. rewrite H2 in Hin2.
    apply elem_of_map_to_list in Hin1, Hin2. congruence.
  - apply (Sorted_merge_sort _).
  - apply (Sorted_merge_sort _).
  - rewrite !merge_sort_Permutation. unfold MerkleSpec.leafSet.
    by rewrite H1, H2.
Qed.

Section fuel.
Context {Hash : Type}.
Variable hashPair : Hash → Hash → Hash.
Variable oddNode : Hash → Hash.
Variable emptyRoot : Hash.

Lemma pairUp_length (level : list Hash) :
  (length (MerkleSpec.pairUp hashPair oddNode level) ≤ length level)%nat
  ∧ ∀ h, (length (MerkleSpec.pairUp hashPair oddNode (h :: level))
          ≤ S (length level))%nat.
Proof.
  induction level as [|a level [IH1 IH2]].
  - split; [done|]. intros h. cbn. lia.
  - split; [apply IH2|]. intros h. cbn [MerkleSpec.pairUp length]. lia.
Qed.

(** The number of leaves is fuel enough: with that much or more, the root
    does not depend on the fuel, so the bound is never what ends the
    reduction. *)
Lemma reduce_enough_fuel fuel fuel' (level : list Hash) :
  (length level ≤ fuel)%nat →
  (length level ≤ fuel')%nat →
  MerkleSpec.reduce hashPair oddNode emptyRoot fuel level
  = MerkleSpec.reduce hashPair oddNode emptyRoot fuel' level.
Proof.
  revert fuel' level. induction fuel as [|fuel IH]; intros fuel' level H1 H2.
  - destruct level; [|cbn in H1; lia]. by destruct fuel'.
  - destruct level as [|a [|b rest]]; [by destruct fuel'..|].
    destruct fuel' as [|fuel']; [cbn in H2; lia|].
    cbn [MerkleSpec.reduce]. cbn [length] in H1, H2.
    pose proof (proj1 (pairUp_length rest)).
    apply IH; cbn [MerkleSpec.pairUp length]; lia.
Qed.

End fuel.

(** C5. Whatever the leaf hash, the node hash and the rule for a node
    without sibling are: two builds of the tree of a distribution [D], each
    meeting the entries of [D] in an order of its own, put the leaves in
    the same canonical order and produce the same root. *)
Theorem merkle_root_deterministic {Hash : Type}
    (hashLeaf : N → Z → Hash) (hashPair : Hash → Hash → Hash)
    (oddNode : Hash → Hash) (emptyRoot : Hash)
    (D : gmap N Z) (entries1 entries2 : list (N * Z)) :
  entries1 ≡ₚ map_to_list D →
  entries2 ≡ₚ map_to_list D →
  MerkleSpec.canonicalLeaves entries1 = MerkleSpec.canonicalLeaves entries2
  ∧ MerkleSpec.root hashLeaf hashPair oddNode emptyRoot entries1
    = MerkleSpec.root hashLeaf hashPair oddNode emptyRoot entries2
  ∧ (∀ r1 r2,
       MerkleSpec.builds hashLeaf hashPair oddNode emptyRoot D r1 →
       MerkleSpec.builds hashLeaf hashPair oddNode emptyRoot D r2 →
       r1 = r2).
Proof.
  intros H1 H2.
  pose proof (canonicalLeaves_order D entries1 entries2 H1 H2) as Hc.
  split_and!.
  - done.
  - unfold MerkleSpec.root. by rewrite Hc.
  - intros r1 r2 (e1 & He1 & ->) (e2 & He2 & ->).
    unfold MerkleSpec.root. by rewrite (canonicalLeaves_order D e1 e2 He1 He2).
Qed.

Lemma merkle_root_deterministic_witness :
  toyRoot [(1%N, 5); (2%N, 7)] = toyRoot [(2%N, 7); (1%N, 5)].
Proof.
  refine (proj1 (proj2
    (merkle_root_deterministic (λ address amount, Z.of_N address * 1000 + amount)
       (λ l r, 31 * l + r) (λ h, h) 0 sampleDistribution
       [(1%N, 5); (2%N, 7)] [(2%N, 7); (1%N, 5)] _ _))).
  - change (map_to_list sampleDistribution) with [(2%N, 7); (1%N, 5)].
    apply perm_swap.
  - change (map_to_list sampleDistribution) with [(2%N, 7); (1%N, 5)].
    reflexivity.
Defined.

(** ** Single flight *)

Lemma needsFlag_le_ownsSlot l :
  (sum_list_with needsFlag l ≤ sum_list_with ownsSlot l)%nat.
Proof.
  induction l as [|th l IH]; cbn; [lia|].
  destruct th as [[]|? []]; cbn; lia.
Qed.

Lemma inFlight_le_ownsSlot l :
  (sum_list_with inFlight l ≤ sum_list_with ownsSlot l)%nat.
Proof.
  induction l as [|th l IH]; cbn; [lia|].
  destruct th as [[]|? []]; cbn; lia.
Qed.

Lemma ownsSlot_le l :
  (sum_list_with ownsSlot l
   ≤ sum_list_with running l + sum_list_with needsFlag l
     + sum_list_with holdsLock l)%nat.
Proof.
  induction l as [|th l IH]; cbn; [lia|].
  destruct th as [[]|? []]; cbn; lia.
Qed.

Lemma singleDriverInv_boot w : singleDriverInv (boot w).
Proof. unfold singleDriverInv, runsInProgress. cbn. split_and!; auto. Qed.

(** The invariant is kept by every step of a process with a single caller
    of [run]. *)
Lemma singleDriverInv_step cfg s s' :
  step true cfg s s' → singleDriverInv s → singleDriverInv s'.
Proof.
  unfold singleDriverInv, runsInProgress.
  intros Hstep (Hrun & Hlock & Hslot & Hflag).
  destruct Hstep;
    repeat match goal with
           | H : threads _ = _ |- _ => rewrite H in *; clear H
           | H : locked _ = _ |- _ => rewrite H in *; clear H
           | H : sameFlag _ _ |- _ => destruct H as [H ?]
           | H : true = true → _ |- _ =>
               specialize (H eq_refl); unfold runsInProgress in H
           end;
    cbn [shared locked threads isRunning set_isRunning set_world log_Println
         go_generateRewardsTree] in *;
    repeat match goal with
           | H : isRunning _ = isRunning _ |- _ => rewrite H in *; clear H
           end;
    rewrite ?sum_list_with_app in *; cbn [sum_list_with] in *;
    rewrite ?sum_list_with_app in *; cbn [sum_list_with] in *;
    cbn [running holdsLock ownsSlot needsFlag] in *;
    repeat match goal with
           | |- context [sum_list_with _ ?l] =>
               lazymatch goal with
               | _ : (sum_list_with needsFlag l ≤ sum_list_with ownsSlot l)%nat |- _ => fail
               | _ =>
                   pose proof (needsFlag_le_ownsSlot l);
                   pose proof (ownsSlot_le l)
               end
           end;
    try (destruct (locked s) eqn:?);
    try (destruct (isRunning (shared s)) eqn:?);
    split_and!; try lia; try (intros; lia); try (intros ?; discriminate).
Qed.

Lemma singleDriverInv_reachable cfg w s :
  rtc (step true cfg) (boot w) s → singleDriverInv s.
Proof.
  intros Hrtc. revert s Hrtc. apply rtc_ind_r.
  - apply singleDriverInv_boot.
  - intros s1 s2 _ Hstep IH. by eapply singleDriverInv_step.
Qed.

(** One step of a schedule: the constructor names the thread (by what
    stands before and after it in the pool) and its move. *)
Tactic Notation "schedule" open_constr(c) :=
  eapply rtc_l; [eapply c; reflexivity|]; cbn -[String.append].

(** Two overlapping calls of [run] both see the flag down before either
    sets it; each then removes a request and starts a generation. *)
Lemma two_generations_in_flight :
  ∃ s, rtc (step false sampleConfig) (boot twoRequests) s
       ∧ generationsInFlight s = 2%nat.
Proof.
  eexists. split.
  - eapply rtc_l; [apply (step_call false sampleConfig); intros [=]|]; cbn.
    eapply rtc_l; [apply (step_call false sampleConfig); intros [=]|]; cbn.
    schedule (step_run_lock false sampleConfig _ [] [RunCall RunEntry]).
    schedule (step_run_pass false sampleConfig _ [] [RunCall RunEntry]).
    schedule (step_run_lock false sampleConfig _ [RunCall RunScanning] []).
    schedule (step_run_pass false sampleConfig _ [RunCall RunScanning] []).
    schedule (step_run_readdir false sampleConfig _ [] [RunCall RunScanning]).
    schedule (step_run_scan_request false sampleConfig _ [] [RunCall RunScanning]).
    schedule (step_run_readdir false sampleConfig _ [RunCall (RunFound 5)] []).
    schedule (step_run_scan_request false sampleConfig _ [RunCall (RunFound 5)] []).
    schedule (step_run_relock false sampleConfig _ [] [RunCall (RunFound 6)]).
    schedule (step_run_set false sampleConfig _ [] [RunCall (RunFound 6)]).
    schedule (step_run_unlock false sampleConfig _ [] [RunCall (RunFound 6)]).
    schedule (step_run_go false sampleConfig _ [] [RunCall (RunFound 6)]).
    schedule (step_run_relock false sampleConfig _ [RunCall (RunReturned None)]
                [Generation 5 GenWorking]).
    schedule (step_run_set false sampleConfig _ [RunCall (RunReturned None)]
                [Generation 5 GenWorking]).
    schedule (step_run_unlock false sampleConfig _ [RunCall (RunReturned None)]
                [Generation 5 GenWorking]).
    schedule (step_run_go false sampleConfig _ [RunCall (RunReturned None)]
                [Generation 5 GenWorking]).
    apply rtc_refl.
  - reflexivity.
Qed.

(** With a single caller, a call of [run] can go all the way to a started
    generation. *)
Lemma one_generation_in_flight :
  ∃ s, rtc (step true sampleConfig) (boot twoRequests) s
       ∧ generationsInFlight s = 1%nat
       ∧ isRunning (shared s) = true.
Proof.
  eexists. split.
  - schedule (step_call true sampleConfig).
    schedule (step_run_lock true sampleConfig _ [] []).
    schedule (step_run_pass true sampleConfig _ [] []).
    schedule (step_run_readdir true sampleConfig _ [] []).
    schedule (step_run_scan_request true sampleConfig _ [] []).
    schedule (step_run_relock true sampleConfig _ [] []).
    schedule (step_run_set true sampleConfig _ [] []).
    schedule (step_run_unlock true sampleConfig _ [] []).
    schedule (step_run_go true sampleConfig _ [] []).
    apply rtc_refl.
  - split; reflexivity.
Qed.

Lemma sum_list_with_elem {A} (f : A → nat) (x : A) (l : list A) :
  x ∈ l → (f x ≤ sum_list_with f l)%nat.
Proof.
  induction 1 as [|? ? ? _ IH]; cbn; lia.
Qed.

(** A call of [run] that finds the flag up. *)
Lemma run_busy cfg t :
  isRunning t = true →
  run cfg t
  = (None,
     log_Println "Tree generation is already running."
       (log_Println "Checking for manual rewards tree generation requests..." t)).
Proof. intros H. unfold run. cbn [log_Println isRunning]. by rewrite H. Qed.

(** C1, as stated, fails: the flag is tested in one critical section and
    set in another, so with two overlapping calls of [run] and two request
    files two generations are in flight at once. *)
Lemma singleFlight_fails : ¬ singleFlight false sampleConfig twoRequests.
Proof.
  intros H. destruct two_generations_in_flight as (s & Hreach & Hn).
  specialize (H s Hreach). lia.
Qed.

(** C1, amended. When [run] has a single caller that waits for each call
    to return before the next (the polling loop), at most one generation is
    in flight at any moment, whatever the interleaving with the generation
    and with changes of the world; the flag is up when the generation is
    launched and stays up until the generation resets it; and a call that
    finds the flag up logs that and returns [nil] without reading the
    directory, removing a request or starting a generation. *)
Theorem single_driver_single_flight cfg w s :
  rtc (step true cfg) (boot w) s →
  (generationsInFlight s ≤ 1)%nat
  ∧ (∀ index, RunCall (RunSpawning index) ∈ threads s → isRunning (shared s) = true)
  ∧ (∀ index pc,
       Generation index pc ∈ threads s →
       pc ∈ [GenWorking; GenResetting; GenLocked] →
       isRunning (shared s) = true)
  ∧ (∀ t,
       isRunning t = true →
       (run cfg t).1 = None
       ∧ world (run cfg t).2 = world t
       ∧ started (run cfg t).2 = started t
       ∧ isRunning (run cfg t).2 = true).
Proof.
  intros Hreach.
  destruct (singleDriverInv_reachable cfg w s Hreach) as (_ & _ & Hslot & Hflag).
  split_and!.
  - unfold generationsInFlight.
    pose proof (inFlight_le_ownsSlot (threads s)). lia.
  - intros index Hin.
    destruct (isRunning (shared s)) eqn:Hrun; [done|].
    specialize (Hflag eq_refl).
    pose proof (sum_list_with_elem needsFlag _ _ Hin) as Hle.
    rewrite Hflag in Hle. cbn in Hle. lia.
  - intros index pc Hin Hpc.
    destruct (isRunning (shared s)) eqn:Hrun; [done|].
    specialize (Hflag eq_refl).
    pose proof (sum_list_with_elem needsFlag _ _ Hin) as Hle.
    rewrite Hflag in Hle.
    set_unfold in Hpc. destruct Hpc as [->|[->|[->|[]]]]; cbn in Hle; lia.
  - intros t Hrun. rewrite (run_busy cfg t Hrun). by cbn.
Qed.

Lemma single_driver_single_flight_witness :
  ∃ s, rtc (step true sampleConfig) (boot twoRequests) s
       ∧ generationsInFlight s = 1%nat
       ∧ (generationsInFlight s ≤ 1)%nat.
Proof.
  destruct one_generation_in_flight as (s & Hreach & Hn & _).
  exists s. split_and!; [exact Hreach|exact Hn|].
  exact (proj1 (single_driver_single_flight sampleConfig twoRequests s Hreach)).
Defined.

(** ** [run] as a thread

    The function [run] is what a call of [run] does as a thread of the
    process when nothing else moves between its steps: from its entry with
    the lock free, the thread reaches its return with the state [run]
    computes, the lock free again, and the generation it started, if any,
    in the pool. *)
Lemma run_as_steps single cfg t :
  rtc (step single cfg)
    {| shared := t; locked := false; threads := [RunCall RunEntry] |}
    {| shared := (run cfg t).2; locked := false;
       threads :=
         RunCall (RunReturned (run cfg t).1)
         :: ((λ index, Generation index GenWorking)
               <$> drop (length (started t)) (started (run cfg t).2)) |}.
Proof.
  eapply rtc_l; [by eapply (step_run_lock _ _ _ [] [])|]. cbn [shared locked threads app].
  unfold run. set (t0 := log_Println _ t).
  destruct (isRunning t0) eqn:Hrun.
  { eapply rtc_l; [by eapply (step_run_busy _ _ _ [] [])|].
    cbn [shared locked threads app fst snd started log_Println].
    rewrite drop_all. apply rtc_refl. }
  eapply rtc_l; [by eapply (step_run_pass _ _ _ [] [])|]. cbn [shared locked threads app].
  destruct (ReadDir (GetWatchtowerFolder cfg) (world t0)) as [[files|err] w] eqn:Hdir.
  2:{ eapply rtc_l; [by eapply (step_run_readdir_err _ _ _ [] [])|].
      cbn [shared locked threads app fst snd started set_world log_Println t0].
      rewrite drop_all. apply rtc_refl. }
  eapply rtc_l; [by eapply (step_run_readdir _ _ _ [] [])|]. cbn [shared locked threads app].
  destruct (scanRequests cfg files w) as [[err|index|] w'] eqn:Hscan.
  - eapply rtc_l; [by eapply (step_run_scan_err _ _ _ [] [] files err w')|].
    cbn [shared locked threads app fst snd started set_world log_Println t0 isRunning
         log errLog world].
    rewrite drop_all. apply rtc_refl.
  - eapply rtc_l; [by eapply (step_run_scan_request _ _ _ [] [] files index w')|].
    eapply rtc_l; [by eapply (step_run_relock _ _ _ [] [])|].
    eapply rtc_l; [by eapply (step_run_set _ _ _ [] [])|].
    eapply rtc_l; [by eapply (step_run_unlock _ _ _ [] [])|].
    eapply rtc_l; [by eapply (step_run_go _ _ _ [] [])|].
    cbn [shared locked threads app fst snd started set_world set_isRunning
         go_generateRewardsTree log_Println t0 isRunning log errLog world].
    rewrite drop_app_length. apply rtc_refl.
  - eapply rtc_l; [by eapply (step_run_scan_nothing _ _ _ [] [] files w')|].
    cbn [shared locked threads app fst snd started set_world log_Println t0 isRunning
         log errLog world].
    rewrite drop_all. apply rtc_refl.
Qed.

(** ** Further properties of the task *)

(** The flag is reset on every exit path of the generation: whatever the
    services answer and whatever the world does, [isRunning] is false when
    [generateRewardsTree] returns; it starts no goroutine. *)
Theorem generation_always_resets {NodeRewards NetworkRewards Tree Wrapper}
    cfg (svc : Services NodeRewards NetworkRewards Tree Wrapper) index t :
  isRunning (generateRewardsTree cfg svc index t) = false
  ∧ started (generateRewardsTree cfg svc index t) = started t.
Proof.
  destruct (generation_outcome cfg svc index (world t))
    as [(ev & tree & data & Hs)|[msg Hf]].
  - by destruct (generation_succeeds cfg svc index t ev tree data Hs)
      as (_ & ? & ? & _).
  - by destruct (generation_fails cfg svc index t msg Hf) as (_ & ? & _ & ? & _).
Qed.

(** A poll that finds no request file returns [nil] and leaves the flag,
    the directory and the goroutines as they were. *)
Theorem run_without_requests cfg t :
  isRunning t = false →
  readDirError (world t) = None →
  find (isRequest cfg) (requests (world t)) = None →
  (run cfg t).1 = None
  ∧ isRunning (run cfg t).2 = false
  ∧ requests (world (run cfg t).2) = requests (world t)
  ∧ started (run cfg t).2 = started t.
Proof.
  intros Hidle Hdir Hfind. rewrite (run_idle _ _ Hidle). cbn zeta.
  unfold ReadDir. cbn [log_Println world]. by rewrite Hdir, Hfind.
Qed.

Lemma run_without_requests_witness :
  (run sampleConfig (idle (worldOf [regular "notes.txt"]))).1 = None.
Proof.
  exact (proj1 (run_without_requests sampleConfig (idle (worldOf [regular "notes.txt"]))
                  eq_refl eq_refl eq_refl)).
Defined.

(** When [os.Stat] of the custom key directory fails with an error that
    [os.IsNotExist] does not recognise, [info] is [nil] and the test
    [!info.IsDir()] panics, after the validator keys have been deleted. *)
Theorem purge_stat_error_panics env pubkeys err :
  wallet.servicesUp env →
  wallet.GetNodeValidatingMinipoolPubkeys env = Ok pubkeys →
  wallet.Stat env = wallet.StatOtherError err →
  wallet.purge env = (wallet.Panic, wallet.DeleteValidatorKey <$> pubkeys).
Proof.
  intros (H1 & H2 & H3 & H4 & H5 & H6 & H7) Hkeys Hstat.
  unfold wallet.purge. rewrite H1, H2, H3, H4, H5, H6, H7, Hkeys.
  pose proof (deleteValidatorKeys_actions pubkeys) as Hdone.
  destruct (wallet.deleteValidatorKeys pubkeys) as [pubkeyMap done].
  cbn in Hdone. subst done. by rewrite Hstat.
Qed.

Lemma purge_stat_error_panics_witness :
  wallet.purge wallet.unreadableEnv
  = (wallet.Panic, [wallet.DeleteValidatorKey "0xa1"; wallet.DeleteValidatorKey "0xb2"]).
Proof.
  apply (purge_stat_error_panics wallet.unreadableEnv ["0xa1"; "0xb2"]
           "stat /data/custom-keys: permission denied").
  - by repeat split.
  - reflexivity.
  - reflexivity.
Defined.

(** ** More on the wallet purge *)

(** The map built beside the deletion of the validator keys holds exactly
    the node's public keys. *)
Lemma deleteValidatorKeys_lookup pubkeys pubkey :
  is_Some ((wallet.deleteValidatorKeys pubkeys).1 !! pubkey) ↔ pubkey ∈ pubkeys.
Proof.
  unfold wallet.deleteValidatorKeys.
  enough (∀ (m : gmap string bool) done,
            is_Some ((foldl (λ '(pubkeyMap, done) pk,
                               (<[pk := true]> pubkeyMap,
                                done ++ [wallet.DeleteValidatorKey pk]))
                        (m, done) pubkeys).1 !! pubkey)
            ↔ pubkey ∈ pubkeys ∨ is_Some (m !! pubkey)) as H.
  { rewrite H, lookup_empty. split; [|by left].
    intros [?|Hs]; [done|]. by apply is_Some_None in Hs. }
  induction pubkeys as [|pk pubkeys IH]; intros m done; cbn [foldl].
  - cbn. rewrite elem_of_nil. tauto.
  - rewrite IH. rewrite elem_of_cons.
    destruct (decide (pk = pubkey)) as [->|Hne].
    + rewrite lookup_insert_eq. split; [by left; left|by right].
    + rewrite lookup_insert_ne by done. split; [tauto|].
      intros [[?|?]|?]; [congruence|tauto..].
Qed.

Lemma ownKeystorePaths_cons env pubkeys file files :
  wallet.ownKeystorePaths env pubkeys (file :: files)
  = if wallet.ownKeystore env pubkeys file
    then Join (wallet.GetCustomKeyPath env) (Name file)
           :: wallet.ownKeystorePaths env pubkeys files
    else wallet.ownKeystorePaths env pubkeys files.
Proof.
  unfold wallet.ownKeystorePaths. rewrite filter_cons.
  destruct (wallet.ownKeystore env pubkeys file); by case_decide.
Qed.

(** The loop over the custom keystores: it only adds removals, of the
    keystores that hold a key of the node, in the order of the listing; it
    runs to its end exactly when every file is read, deserialized and,
    where it holds a key of the node, removed without error; and then
    every such keystore is removed. *)
Lemma removeCustomKeys_spec env pubkeys (m : gmap string bool) files done :
  (∀ pubkey, is_Some (m !! pubkey) ↔ pubkey ∈ pubkeys) →
  ∃ removed,
    (wallet.removeCustomKeys env m files done).2
    = done ++ (wallet.RemoveAll <$> removed)
    ∧ removed `prefix_of` wallet.ownKeystorePaths env pubkeys files
    ∧ ((wallet.removeCustomKeys env m files done).1 = None
       ↔ wallet.keystoresProcessed env pubkeys files)
    ∧ ((wallet.removeCustomKeys env m files done).1 = None
       → removed = wallet.ownKeystorePaths env pubkeys files).
Proof.
  intros Hm. unfold wallet.keystoresProcessed.
  revert done. induction files as [|file files IH]; intros done.
  { exists []. cbn. rewrite app_nil_r. by split_and!. }
  cbn [wallet.removeCustomKeys]. rewrite ownKeystorePaths_cons.
  setoid_rewrite Forall_cons. unfold wallet.ownKeystore.
  destruct (wallet.ReadFile env _) as [bytes|err] eqn:Hread.
  2:{ assert (wallet.keystorePubkey env file = None) as Hkey.
      { unfold wallet.keystorePubkey. by rewrite Hread. }
      exists []. cbn. rewrite app_nil_r. split_and!; [done|apply prefix_nil| |done].
      split; [done|]. intros [(? & Hk & _) _]. congruence. }
  destruct (wallet.Unmarshal env bytes) as [pubkey|err] eqn:Hparse.
  2:{ assert (wallet.keystorePubkey env file = None) as Hkey.
      { unfold wallet.keystorePubkey. by rewrite Hread, Hparse. }
      exists []. cbn. rewrite app_nil_r. split_and!; [done|apply prefix_nil| |done].
      split; [done|]. intros [(? & Hk & _) _]. congruence. }
  assert (wallet.keystorePubkey env file = Some pubkey) as Hkey.
  { unfold wallet.keystorePubkey. by rewrite Hread, Hparse. }
  rewrite Hkey.
  destruct (m !! pubkey) as [b|] eqn:Hlook.
  - assert (pubkey ∈ pubkeys) as Hin by (apply Hm; by rewrite Hlook).
    rewrite (bool_decide_eq_true_2 _ Hin). cbn zeta.
    destruct (wallet.RemoveAllError env _) as [err|] eqn:Hrm.
    + exists [Join (wallet.GetCustomKeyPath env) (Name file)]. cbn.
      split_and!; [done| | |done].
      * apply prefix_cons, prefix_nil.
      * split; [done|]. intros [(pk & Hk & Hok) _].
        assert (pk = pubkey) as -> by congruence.
        specialize (Hok Hin). congruence.
    + destruct (IH (done ++ [wallet.RemoveAll (Join (wallet.GetCustomKeyPath env) (Name file))]))
        as (removed & Hacts & Hown & Hend & Hall).
      exists (Join (wallet.GetCustomKeyPath env) (Name file) :: removed).
      split_and!.
      * rewrite Hacts. cbn. by rewrite <-app_assoc.
      * by apply prefix_cons.
      * rewrite Hend. split; [|tauto]. intros HF. split; [|done].
        exists pubkey. split; [done|]. by intros _.
      * intros Hnone. by rewrite (Hall Hnone).
  - assert (pubkey ∉ pubkeys) as Hin.
    { intros Hin. apply Hm in Hin. rewrite Hlook in Hin. by apply is_Some_None in Hin. }
    rewrite (bool_decide_eq_false_2 _ Hin).
    destruct (IH done) as (removed & Hacts & Hown & Hend & Hall).
    exists removed. split_and!; [done|done| |done].
    rewrite Hend. split; [|tauto]. intros HF. split; [|done].
    exists pubkey. split; [done|]. intros ?. done.
Qed.

(** A path among [ownKeystorePaths] is that of a listed keystore that
    holds one of the keys. *)
Lemma elem_of_ownKeystorePaths env pubkeys files path :
  path ∈ wallet.ownKeystorePaths env pubkeys files →
  ∃ file pubkey,
    file ∈ files
    ∧ path = Join (wallet.GetCustomKeyPath env) (Name file)
    ∧ wallet.keystorePubkey env file = Some pubkey
    ∧ pubkey ∈ pubkeys.
Proof.
  unfold wallet.ownKeystorePaths. rewrite list_elem_of_fmap.
  intros (file & -> & Hin). apply list_elem_of_filter in Hin as [Hown Hin].
  unfold wallet.ownKeystore in Hown.
  destruct (wallet.keystorePubkey env file) as [pubkey|] eqn:Hkey; [|done].
  exists file, pubkey. split_and!; try done. by apply bool_decide_eq_true_1 in Hown.
Qed.

(** What [purge] has done when it ends, by how far it came. *)
Lemma purge_cases env :
  ((¬ wallet.servicesUp env
    ∨ ∃ err, wallet.GetNodeValidatingMinipoolPubkeys env = Err err)
   ∧ (wallet.purge env).2 = []
   ∧ ∃ err, (wallet.purge env).1 = wallet.Return (Err err))
  ∨ (wallet.servicesUp env
     ∧ ∃ pubkeys,
         wallet.GetNodeValidatingMinipoolPubkeys env = Ok pubkeys
         ∧ (((∀ files, ¬ wallet.customKeysFound env files)
             ∧ (wallet.purge env).2 = wallet.DeleteValidatorKey <$> pubkeys)
            ∨ ∃ files removed,
                wallet.customKeysFound env files
                ∧ removed `prefix_of` wallet.ownKeystorePaths env pubkeys files
                ∧ ((¬ wallet.keystoresProcessed env pubkeys files
                    ∧ (wallet.purge env).2
                      = (wallet.DeleteValidatorKey <$> pubkeys)
                        ++ (wallet.RemoveAll <$> removed)
                    ∧ ∃ err, (wallet.purge env).1 = wallet.Return (Err err))
                   ∨ (wallet.keystoresProcessed env pubkeys files
                      ∧ removed = wallet.ownKeystorePaths env pubkeys files
                      ∧ ∃ rest,
                          (wallet.purge env).2
                          = (wallet.DeleteValidatorKey <$> pubkeys)
                            ++ (wallet.RemoveAll <$> removed)
                            ++ wallet.DeleteWallet :: rest
                          ∧ rest `prefix_of` [wallet.DeletePassword; wallet.RestartValidator]
                          ∧ (wallet.DeleteError env = None
                             → wallet.DeletePasswordError env = None
                             → wallet.RestartValidatorError env = None
                             → rest = [wallet.DeletePassword; wallet.RestartValidator]
                               ∧ (wallet.purge env).1 = wallet.Return (Ok ())))))).
Proof.
  unfold wallet.purge, wallet.servicesUp.
  destruct (wallet.GetConfig env) eqn:H1;
    [left; split_and!; [left; intros (?&_); done|done|by eexists]|].
  destruct (wallet.GetRocketPool env) eqn:H2;
    [left; split_and!; [left; intros (_&?&_); done|done|by eexists]|].
  destruct (wallet.GetWallet env) eqn:H3;
    [left; split_and!; [left; intros (_&_&?&_); done|done|by eexists]|].
  destruct (wallet.GetPasswordManager env) eqn:H4;
    [left; split_and!; [left; intros (_&_&_&?&_); done|done|by eexists]|].
  destruct (wallet.GetNodeAccount env) eqn:H5;
    [left; split_and!; [left; intros (_&_&_&_&?&_); done|done|by eexists]|].
  destruct (wallet.GetBeaconClient env) eqn:H6;
    [left; split_and!; [left; intros (_&_&_&_&_&?&_); done|done|by eexists]|].
  destruct (wallet.GetDocker env) eqn:H7;
    [left; split_and!; [left; intros (_&_&_&_&_&_&?); done|done|by eexists]|].
  destruct (wallet.GetNodeValidatingMinipoolPubkeys env) as [pubkeys|err] eqn:Hkeys;
    [|left; split_and!; [right; by eexists|done|by eexists]].
  right. split; [done|]. exists pubkeys. split; [done|].
  pose proof (deleteValidatorKeys_actions pubkeys) as Hdone.
  pose proof (deleteValidatorKeys_lookup pubkeys) as Hmap.
  destruct (wallet.deleteValidatorKeys pubkeys) as [pubkeyMap done].
  cbn [fst snd] in Hdone, Hmap. subst done. unfold wallet.customKeysFound.
  destruct (wallet.Stat env) as [e|e|info] eqn:Hstat.
  { left. split; [|done]. intros files (? & ? & _). done. }
  { left. split; [|done]. intros files (? & ? & _). done. }
  destruct (IsDir info) eqn:Hdir; cbn [negb].
  2:{ left. split; [|done]. intros files (? & [= <-] & ? & _). congruence. }
  destruct (wallet.ReadDir env) as [files|e] eqn:Hfiles.
  2:{ left. split; [|done]. intros files (? & _ & _ & ? & _). done. }
  case_bool_decide as Hlen.
  { left. split; [|done]. intros fs (? & _ & _ & [= <-] & Hne).
    by destruct files. }
  right. exists files.
  destruct (removeCustomKeys_spec env pubkeys pubkeyMap files
              (wallet.DeleteValidatorKey <$> pubkeys) Hmap)
    as (removed & Hacts & Hown & Hend & Hall).
  exists removed. split; [|split; [done|]].
  { exists info. split_and!; try done. intros ->. done. }
  destruct (wallet.removeCustomKeys env pubkeyMap files _) as [[err|] acts];
    cbn [fst snd] in *; subst acts.
  { left. split_and!; [|done|by eexists]. intros HF. apply Hend in HF. done. }
  right. split; [by apply Hend|]. split; [by apply Hall|].
  destruct (wallet.DeleteError env) as [e|].
  { exists []. rewrite <-app_assoc. split_and!; [done|apply prefix_nil|done]. }
  destruct (wallet.DeletePasswordError env) as [e|].
  { exists [wallet.DeletePassword]. rewrite <-!app_assoc.
    split_and!; [done|apply prefix_cons, prefix_nil|done]. }
  destruct (wallet.RestartValidatorError env) as [e|].
  { exists [wallet.DeletePassword; wallet.RestartValidator]. rewrite <-!app_assoc.
    split_and!; [done|done|done]. }
  exists [wallet.DeletePassword; wallet.RestartValidator]. rewrite <-!app_assoc.
  split_and!; [done|done|done].
Qed.

(** Unless every service is at hand and the node's public keys are
    obtained, [purge] returns an error before it has done anything: no
    validator key is deleted, no file removed, the wallet and the password
    are kept and the validator client is not restarted. *)
Theorem purge_needs_services env :
  ¬ wallet.servicesUp env
  ∨ (∃ err, wallet.GetNodeValidatingMinipoolPubkeys env = Err err) →
  (wallet.purge env).2 = []
  ∧ ∃ err, (wallet.purge env).1 = wallet.Return (Err err).
Proof.
  intros Hdown.
  destruct (purge_cases env) as [(_ & Hacts & Hres)|(Hup & pubkeys & Hkeys & _)];
    [done|].
  destruct Hdown as [Hdown|[err Herr]]; [done|congruence].
Qed.

Lemma purge_needs_services_witness :
  (wallet.purge wallet.noWalletEnv).2 = []
  ∧ ∃ err, (wallet.purge wallet.noWalletEnv).1 = wallet.Return (Err err).
Proof.
  apply (purge_needs_services wallet.noWalletEnv).
  left. intros (_ & _ & H & _). discriminate H.
Defined.

(** [purge] removes no other file than a custom keystore that holds one of
    the node's own validator keys: a keystore of another node's key, and
    every other entry of the directory, stays. *)
Theorem purge_removes_only_own_keystores env path :
  wallet.RemoveAll path ∈ (wallet.purge env).2 →
  ∃ pubkeys files file pubkey,
    wallet.GetNodeValidatingMinipoolPubkeys env = Ok pubkeys
    ∧ wallet.ReadDir env = Ok files
    ∧ file ∈ files
    ∧ path = Join (wallet.GetCustomKeyPath env) (Name file)
    ∧ wallet.keystorePubkey env file = Some pubkey
    ∧ pubkey ∈ pubkeys.
Proof.
  intros Hin.
  destruct (purge_cases env)
    as [(_ & Hacts & _)
       |(_ & pubkeys & Hkeys
         & [(_ & Hacts)
           |(files & removed & (info & _ & _ & Hfiles & _) & Hpre
             & [(_ & Hacts & _)|(_ & _ & rest & Hacts & Hrest & _)])])];
    rewrite Hacts in Hin.
  - by apply elem_of_nil in Hin.
  - apply list_elem_of_fmap in Hin as (? & ? & _). done.
  - apply elem_of_app in Hin as [Hin|Hin];
      apply list_elem_of_fmap in Hin as (p & Hp & Hin); [done|].
    injection Hp as ->.
    destruct (elem_of_ownKeystorePaths env pubkeys files p)
      as (file & pubkey & ? & ? & ? & ?).
    { destruct Hpre as [k ->]. apply elem_of_app. by left. }
    by exists pubkeys, files, file, pubkey.
  - rewrite !elem_of_app, elem_of_cons in Hin.
    destruct Hin as [Hin|[Hin|[Hin|Hin]]].
    + apply list_elem_of_fmap in Hin as (? & ? & _). done.
    + apply list_elem_of_fmap in Hin as (p & Hp & Hin). injection Hp as ->.
      destruct (elem_of_ownKeystorePaths env pubkeys files p)
        as (file & pubkey & ? & ? & ? & ?).
      { destruct Hpre as [k ->]. apply elem_of_app. by left. }
      by exists pubkeys, files, file, pubkey.
    + done.
    + destruct Hrest as [k Hk].
      assert (wallet.RemoveAll path ∈ [wallet.DeletePassword; wallet.RestartValidator])
        as Hbad by (rewrite Hk; apply elem_of_app; by left).
      rewrite !elem_of_cons, elem_of_nil in Hbad. by destruct Hbad as [|[|]].
Qed.

Lemma purge_removes_only_own_keystores_witness :
  ∃ pubkeys files file pubkey,
    wallet.GetNodeValidatingMinipoolPubkeys wallet.customKeysEnv = Ok pubkeys
    ∧ wallet.ReadDir wallet.customKeysEnv = Ok files
    ∧ file ∈ files
    ∧ "/data/custom-keys/a.json" = Join (wallet.GetCustomKeyPath wallet.customKeysEnv) (Name file)
    ∧ wallet.keystorePubkey wallet.customKeysEnv file = Some pubkey
    ∧ pubkey ∈ pubkeys.
Proof.
  apply (purge_removes_only_own_keystores wallet.customKeysEnv "/data/custom-keys/a.json").
  vm_compute. do 2 apply list_elem_of_further. apply list_elem_of_here.
Defined.

(** [purge] deletes the wallet exactly when every service is at hand, the
    node's public keys are obtained, the custom key path is a directory
    with at least one entry, and every entry is a keystore that can be
    read and, where it holds a key of the node, removed. In particular a
    node without custom keys keeps its wallet and its password. *)
Theorem purge_deletes_wallet_iff env :
  wallet.DeleteWallet ∈ (wallet.purge env).2 ↔
    wallet.servicesUp env
    ∧ ∃ pubkeys files,
        wallet.GetNodeValidatingMinipoolPubkeys env = Ok pubkeys
        ∧ wallet.customKeysFound env files
        ∧ wallet.keystoresProcessed env pubkeys files.
Proof.
  assert (∀ (l : list string), wallet.DeleteWallet ∉ wallet.DeleteValidatorKey <$> l) as Hk.
  { intros l Hin. apply list_elem_of_fmap in Hin as (? & ? & _). done. }
  assert (∀ (l : list string), wallet.DeleteWallet ∉ wallet.RemoveAll <$> l) as Hr.
  { intros l Hin. apply list_elem_of_fmap in Hin as (? & ? & _). done. }
  destruct (purge_cases env)
    as [(Hdown & Hacts & _)
       |(Hup & pubkeys & Hkeys
         & [(Hnone & Hacts)
           |(files & removed & Hfound & Hpre
             & [(Hnot & Hacts & _)|(Hall & _ & rest & Hacts & _)])])];
    rewrite Hacts.
  - split; [by intros ?%elem_of_nil|].
    intros (Hup & pubkeys & files & Hkeys & _).
    destruct Hdown as [?|[err Herr]]; [done|congruence].
  - split; [by intros ?%Hk|].
    intros (_ & pubkeys' & files & _ & Hfound & _). by destruct (Hnone files).
  - split.
    + rewrite elem_of_app. intros [?%Hk|?%Hr]; done.
    + intros (_ & pubkeys' & files' & Hkeys' & (? & _ & _ & Hf' & _) & Hall).
      destruct Hfound as (? & _ & _ & Hf & _).
      assert (pubkeys' = pubkeys) as -> by congruence.
      assert (files' = files) as -> by congruence. done.
  - split.
    + intros _. split; [done|]. by exists pubkeys, files.
    + intros _. rewrite !elem_of_app, elem_of_cons. auto.
Qed.

(** The order of a purge: first the node's validator keys, then the
    keystore files, then the wallet, the password and the restart of the
    validator client, each step only after all the steps before it; a
    purge that stops early has done an initial part of this and nothing
    else. *)
Theorem purge_order env :
  ∃ pubkeys removed rest,
    (wallet.purge env).2
    = (wallet.DeleteValidatorKey <$> pubkeys) ++ (wallet.RemoveAll <$> removed) ++ rest
    ∧ rest `prefix_of` [wallet.DeleteWallet; wallet.DeletePassword; wallet.RestartValidator]
    ∧ (pubkeys = [] ∨ wallet.GetNodeValidatingMinipoolPubkeys env = Ok pubkeys)
    ∧ (removed = []
       ∨ ∃ files, wallet.ReadDir env = Ok files
                  ∧ removed `prefix_of` wallet.ownKeystorePaths env pubkeys files)
    ∧ (rest = []
       ∨ ∃ files, wallet.ReadDir env = Ok files
                  ∧ removed = wallet.ownKeystorePaths env pubkeys files).
Proof.
  destruct (purge_cases env)
    as [(_ & Hacts & _)
       |(_ & pubkeys & Hkeys
         & [(_ & Hacts)
           |(files & removed & (info & _ & _ & Hfiles & _) & Hpre
             & [(_ & Hacts & _)|(_ & Hrem & rest & Hacts & Hrest & _)])])];
    rewrite Hacts.
  - exists [], [], []. split_and!; auto. apply prefix_nil.
  - exists pubkeys, [], []. cbn. rewrite app_nil_r. split_and!; auto. apply prefix_nil.
  - exists pubkeys, removed, []. rewrite app_nil_r.
    split_and!; eauto. apply prefix_nil.
  - exists pubkeys, removed, (wallet.DeleteWallet :: rest).
    split_and!; eauto. by apply prefix_cons.
Qed.

(** A purge that meets no error: the validator keys are deleted, then
    exactly the custom keystores that hold one of these keys are removed,
    in the order of the listing, then the wallet and the password are
    deleted and the validator client is restarted. *)
Theorem purge_complete env pubkeys files :
  wallet.servicesUp env →
  wallet.GetNodeValidatingMinipoolPubkeys env = Ok pubkeys →
  wallet.customKeysFound env files →
  wallet.keystoresProcessed env pubkeys files →
  wallet.DeleteError env = None →
  wallet.DeletePasswordError env = None →
  wallet.RestartValidatorError env = None →
  wallet.purge env
  = (wallet.Return (Ok ()),
     (wallet.DeleteValidatorKey <$> pubkeys)
     ++ (wallet.RemoveAll <$> wallet.ownKeystorePaths env pubkeys files)
     ++ [wallet.DeleteWallet; wallet.DeletePassword; wallet.RestartValidator]).
Proof.
  intros Hup Hkeys Hfound Hall Hd Hp Hv.
  destruct (purge_cases env)
    as [(Hdown & _)
       |(_ & pubkeys' & Hkeys'
         & [(Hnone & _)
           |(files' & removed & Hfound' & Hpre
             & [(Hnot & _)|(_ & -> & rest & Hacts & _ & Hrest)])])].
  - destruct Hdown as [?|[err Herr]]; [done|congruence].
  - by destruct (Hnone files).
  - destruct Hfound as (? & _ & _ & Hf & _), Hfound' as (? & _ & _ & Hf' & _).
    assert (pubkeys' = pubkeys) as -> by congruence.
    assert (files' = files) as -> by congruence. done.
  - destruct Hfound as (? & _ & _ & Hf & _), Hfound' as (? & _ & _ & Hf' & _).
    assert (pubkeys' = pubkeys) as -> by congruence.
    assert (files' = files) as -> by congruence.
    destruct (Hrest Hd Hp Hv) as [-> Hres].
    destruct (wallet.purge env) as [res acts]. cbn [fst snd] in *. by subst.
Qed.

Lemma purge_complete_witness :
  wallet.purge wallet.customKeysEnv
  = (wallet.Return (Ok ()),
     [wallet.DeleteValidatorKey "0xa1"; wallet.DeleteValidatorKey "0xb2";
      wallet.RemoveAll "/data/custom-keys/a.json";
      wallet.RemoveAll "/data/custom-keys/b.json";
      wallet.DeleteWallet; wallet.DeletePassword; wallet.RestartValidator]).
Proof.
  apply (purge_complete wallet.customKeysEnv ["0xa1"; "0xb2"]
           [{| Name := "a.json"; IsDir := false |};
            {| Name := "c.json"; IsDir := false |};
            {| Name := "b.json"; IsDir := false |}]).
  - by repeat split.
  - reflexivity.
  - by eexists.
  - repeat constructor; eexists; (split; [reflexivity|]); done.
  - reflexivity.
  - reflexivity.
  - reflexivity.
Defined.

(** ** Responding to challenges *)

(** [run], by its outcome at each call it makes. *)
Lemma respond_run_cases {TransactOpts} (env : respondChallenges.Env TransactOpts) :
  (∃ address opts,
     respondChallenges.challenged env address opts
     ∧ ((∃ err, respondChallenges.DecideChallengeError env address opts = Some err
                ∧ respondChallenges.run env
                  = (Some err,
                     [respondChallenges.Println "Checking for challenges to respond to...";
                      respondChallenges.Println (respondChallenges.challengedLine address);
                      respondChallenges.DecideChallenge address opts]))
        ∨ (respondChallenges.DecideChallengeError env address opts = None
           ∧ respondChallenges.run env
             = (None,
                [respondChallenges.Println "Checking for challenges to respond to...";
                 respondChallenges.Println (respondChallenges.challengedLine address);
                 respondChallenges.DecideChallenge address opts;
                 respondChallenges.Println (respondChallenges.respondedLine address)]))))
  ∨ ((∀ address opts, ¬ respondChallenges.challenged env address opts)
     ∧ Forall (λ a, ∃ line, a = respondChallenges.Println line
                            ∧ ∀ address, line ≠ respondChallenges.respondedLine address)
         (respondChallenges.run env).2).
Proof.
  unfold respondChallenges.run, respondChallenges.challenged.
  destruct (respondChallenges.WaitEthClientSynced env) as [e|] eqn:H1.
  { right. split; [|done]. intros ? ? (? & _). done. }
  destruct (respondChallenges.GetNodeAccount env) as [nodeAccount|e] eqn:H2.
  2:{ right. split; [|done]. intros ? ? (_ & ? & _). done. }
  destruct (respondChallenges.GetMemberExists env nodeAccount) as [[]|e] eqn:H3; cbn [negb].
  2:{ right. split; [|done]. intros ? ? (_ & [= <-] & ? & _). congruence. }
  2:{ right. split; [|done]. intros ? ? (_ & [= <-] & ? & _). congruence. }
  assert (Forall (λ a : respondChallenges.Action TransactOpts,
                    ∃ line, a = respondChallenges.Println line
                            ∧ ∀ address, line ≠ respondChallenges.respondedLine address)
            [respondChallenges.Println "Checking for challenges to respond to..."]) as Hlog.
  { repeat constructor. eexists. split; [done|]. intros address. discriminate. }
  destruct (respondChallenges.GetMemberIsChallenged env nodeAccount) as [[]|e] eqn:H4;
    cbn [negb].
  2:{ right. split; [|done]. intros ? ? (_ & [= <-] & _ & ? & _). congruence. }
  2:{ right. split; [|done]. intros ? ? (_ & [= <-] & _ & ? & _). congruence. }
  destruct (respondChallenges.GetNodeAccountTransactor env) as [opts|e] eqn:H5.
  2:{ right. split; [intros ? ? (_ & _ & _ & _ & ?); done|].
      apply Forall_app. split; [done|]. repeat constructor.
      eexists. split; [done|]. intros address. discriminate. }
  left. exists nodeAccount, opts. split; [done|].
  destruct (respondChallenges.DecideChallengeError env nodeAccount opts) as [e|] eqn:H6.
  - left. by exists e.
  - by right.
Qed.

(** The task submits its decision on a challenge exactly when the
    execution client is synced, the node is a member of the oracle DAO
    with an active challenge against it and its transactor is at hand; the
    decision is for the node's own address and is submitted once. A node
    that is not a member or is not challenged never sends a transaction. *)
Theorem challenge_decided_iff {TransactOpts}
    (env : respondChallenges.Env TransactOpts) address opts :
  respondChallenges.DecideChallenge address opts ∈ (respondChallenges.run env).2
  ↔ respondChallenges.challenged env address opts.
Proof.
  destruct (respond_run_cases env)
    as [(address' & opts' & Hch & [(err & _ & Hrun)|(_ & Hrun)])|(Hnot & Hlines)].
  - rewrite Hrun. cbn [snd]. rewrite !elem_of_cons, elem_of_nil. split.
    + intros [?|[?|[[= -> ->]|?]]]; done.
    + intros Hch'. destruct Hch as (_ & Ha & _ & _ & Ho), Hch' as (_ & Ha' & _ & _ & Ho').
      assert (address' = address) as -> by congruence.
      assert (opts' = opts) as -> by congruence. auto.
  - rewrite Hrun. cbn [snd]. rewrite !elem_of_cons, elem_of_nil. split.
    + intros [?|[?|[[= -> ->]|[?|?]]]]; done.
    + intros Hch'. destruct Hch as (_ & Ha & _ & _ & Ho), Hch' as (_ & Ha' & _ & _ & Ho').
      assert (address' = address) as -> by congruence.
      assert (opts' = opts) as -> by congruence. auto.
  - split; [|by intros ?%Hnot].
    intros Hin. rewrite Forall_forall in Hlines.
    destruct (Hlines _ Hin) as (? & ? & _). done.
Qed.

(** The task reports a response exactly when it has submitted its decision
    and the submission met no error: the line is never printed for a
    challenge that was not answered. *)
Theorem response_reported_iff {TransactOpts}
    (env : respondChallenges.Env TransactOpts) address :
  respondChallenges.Println (respondChallenges.respondedLine address)
    ∈ (respondChallenges.run env).2
  ↔ ∃ opts, respondChallenges.challenged env address opts
            ∧ respondChallenges.DecideChallengeError env address opts = None.
Proof.
  assert (∀ a b, @respondChallenges.Println TransactOpts (respondChallenges.respondedLine a)
                 = respondChallenges.Println (respondChallenges.respondedLine b) → a = b)
    as Hinj.
  { intros a b H.
    assert (respondChallenges.respondedLine a = respondChallenges.respondedLine b) as H'
      by congruence.
    clear H. unfold respondChallenges.respondedLine in H'.
    apply append_inj_l in H'. rename H' into H. revert b H.
    induction a as [|c a IH]; intros [|d b] H; cbn in H; try done.
    - destruct b; discriminate.
    - destruct a; discriminate.
    - injection H as -> H. f_equal. by apply IH. }
  destruct (respond_run_cases env)
    as [(address' & opts' & Hch & [(err & Herr & Hrun)|(Hok & Hrun)])|(Hnot & Hlines)].
  - rewrite Hrun. cbn [snd]. rewrite !elem_of_cons, elem_of_nil. split.
    + intros [?|[H|[?|?]]]; done.
    + intros (opts & Hch' & Hnone).
      destruct Hch as (_ & Ha & _ & _ & Ho), Hch' as (_ & Ha' & _ & _ & Ho').
      assert (address' = address) as -> by congruence.
      assert (opts' = opts) as -> by congruence. congruence.
  - rewrite Hrun. cbn [snd]. rewrite !elem_of_cons, elem_of_nil. split.
    + intros [?|[?|[?|[H|?]]]]; try done.
      apply Hinj in H as ->. by exists opts'.
    + intros (opts & Hch' & _).
      destruct Hch as (_ & Ha & _ & _ & Ho), Hch' as (_ & Ha' & _ & _ & Ho').
      assert (address' = address) as -> by congruence. auto.
  - split; [|by intros (opts & ?%Hnot & _)].
    intros Hin. rewrite Forall_forall in Hlines.
    destruct (Hlines _ Hin) as (line & [= <-] & Hne). by destruct (Hne address).
Qed.

Lemma challenge_decided_iff_witness :
  respondChallenges.DecideChallenge "0xNode" "0xNode"
    ∈ (respondChallenges.run respondChallenges.challengedEnv).2.
Proof.
  apply (proj2 (challenge_decided_iff respondChallenges.challengedEnv "0xNode" "0xNode")).
  by repeat split.
Defined.

Lemma response_reported_iff_witness :
  respondChallenges.Println (respondChallenges.respondedLine "0xNode")
    ∈ (respondChallenges.run respondChallenges.challengedEnv).2.
Proof.
  apply (proj2 (response_reported_iff respondChallenges.challengedEnv "0xNode")).
  exists "0xNode". by repeat split.
Defined.

(** ** More on the request watcher *)

Lemma find_pending cfg w :
  find (isRequest cfg) (requests w) = head (pending cfg w).
Proof.
  unfold pending. induction (requests w) as [|f l IH]; [done|].
  cbn [find]. rewrite filter_cons.
  destruct (isRequest cfg f) eqn:Hf; case_decide; try done.
Qed.

(** A poll that serves the request [f]: what it leaves. *)
Lemma run_serves cfg t f index :
  isRunning t = false →
  readDirError (world t) = None →
  find (isRequest cfg) (requests (world t)) = Some f →
  servableAs cfg (world t) f index →
  let t' := (run cfg t).2 in
  started t' = started t ++ [index]
  ∧ requests (world t') = filter (λ g, Name g ≠ Name f) (requests (world t))
  ∧ readDirError (world t') = None
  ∧ removeError (world t') = removeError (world t)
  ∧ errLog t' = errLog t.
Proof.
  intros Hidle Hdir Hfind [Hparse Hrm]. rewrite (run_idle _ _ Hidle). cbn zeta.
  unfold ReadDir. cbn [log_Println world]. rewrite Hdir, Hfind.
  rewrite (scanRequests_request _ _ _ (find_isRequest _ _ _ Hfind)), Hparse.
  cbn zeta. cbn [record removeError]. rewrite Hrm. by cbn.
Qed.

(** A poll that finds no request: what it leaves. *)
Lemma run_nothing cfg t :
  isRunning t = false →
  readDirError (world t) = None →
  find (isRequest cfg) (requests (world t)) = None →
  let t' := (run cfg t).2 in
  started t' = started t
  ∧ requests (world t') = requests (world t)
  ∧ readDirError (world t') = None
  ∧ removeError (world t') = removeError (world t)
  ∧ isRunning t' = false.
Proof.
  intros Hidle Hdir Hfind. rewrite (run_idle _ _ Hidle). cbn zeta.
  unfold ReadDir. cbn [log_Println world]. by rewrite Hdir, Hfind.
Qed.

Section cycles_facts.
Context {NodeRewards NetworkRewards Tree Wrapper : Type}.
Variable cfg : Config.
Variable svc : Services NodeRewards NetworkRewards Tree Wrapper.

(** The generation acts on the logs, on the flag and on the file of its
    artifact; the watchtower folder and what the operating system refuses
    are as they were. *)
Lemma generation_frame index t :
  let t' := generateRewardsTree cfg svc index t in
  requests (world t') = requests (world t)
  ∧ readDirError (world t') = readDirError (world t)
  ∧ removeError (world t') = removeError (world t)
  ∧ writeError (world t') = writeError (world t)
  ∧ ∀ path, path ≠ GetRewardsTreePath cfg index →
            disk (world t') !! path = disk (world t) !! path.
Proof.
  cbn zeta. unfold generateRewardsTree. cbn zeta. hide_lines.
  destruct (GetEventLogInterval svc) as [n|e];
    [|repeat state_simpl; by split_and!].
  destruct (GetRewardSnapshotEvent svc index (int64 n)) as [ev|e];
    [|repeat state_simpl; by split_and!].
  hide_lines.
  destruct (GetEth2Config svc) as [c|e];
    [|repeat state_simpl; by split_and!].
  hide_lines.
  destruct (GetELBlockHeaderForTime svc (blockTimeOf ev c)) as [hdr|e];
    [|repeat state_simpl; by split_and!].
  hide_lines.
  destruct (CalculateRplRewards svc hdr _) as [[[nodes nets] invalid]|e];
    [|repeat state_simpl; by split_and!].
  hide_lines.
  destruct (GenerateMerkleTree svc nodes) as [tree|e];
    [|repeat state_simpl; by split_and!].
  hide_lines.
  match goal with
  | |- context [log_Println _ (if ?b then log_Println ?x ?u else log_Println ?y ?u)] =>
      replace (if b then log_Println x u else log_Println y u)
        with (log_Println (if b then x else y) u) by (by destruct b);
      generalize (if b then x else y); intros verdict
  end.
  destruct (json_Marshal svc _) as [data|e];
    [|repeat state_simpl; by split_and!].
  unfold WriteFile. repeat state_simpl.
  destruct (writeError (world t) !! GetRewardsTreePath cfg index) as [e|].
  - destruct (partialWrite (world t) !! GetRewardsTreePath cfg index) as [k|];
      repeat state_simpl;
      cbn [record store requests readDirError removeError writeError disk];
      split_and!; try done.
    intros path Hpath. by rewrite lookup_insert_ne.
  - repeat state_simpl.
    cbn [record store requests readDirError removeError writeError disk].
    split_and!; try done. intros path Hpath. by rewrite lookup_insert_ne.
Qed.

End cycles_facts.

Lemma filter_all {A} (P : A → Prop) `{∀ x, Decision (P x)} (l : list A) :
  Forall P l → filter P l = l.
Proof.
  induction 1 as [|x l Hx _ IH]; [done|]. by rewrite filter_cons_True, IH.
Qed.

Section cycle_facts.
Context {NodeRewards NetworkRewards Tree Wrapper : Type}.
Variable cfg : Config.
Variable svc : Services NodeRewards NetworkRewards Tree Wrapper.

(** The flag and the goroutines after a generation. *)
Lemma generation_resets index t :
  isRunning (generateRewardsTree cfg svc index t) = false
  ∧ started (generateRewardsTree cfg svc index t) = started t.
Proof.
  destruct (generation_outcome cfg svc index (world t))
    as [(ev & tree & data & Hs)|[msg Hf]].
  - by destruct (generation_succeeds cfg svc index t ev tree data Hs)
      as (_ & ? & ? & _).
  - by destruct (generation_fails cfg svc index t msg Hf) as (_ & ? & _ & ? & _).
Qed.

(** A poll that serves the request [f], with the generation it starts. *)
Lemma cycle_serves t f index :
  isRunning t = false →
  readDirError (world t) = None →
  find (isRequest cfg) (requests (world t)) = Some f →
  servableAs cfg (world t) f index →
  let t' := pollAndGenerate cfg svc t in
  started t' = started t ++ [index]
  ∧ requests (world t') = filter (λ g, Name g ≠ Name f) (requests (world t))
  ∧ readDirError (world t') = None
  ∧ removeError (world t') = removeError (world t)
  ∧ isRunning t' = false.
Proof.
  intros Hidle Hdir Hfind Hserv. cbn zeta. unfold pollAndGenerate. cbn zeta.
  destruct (run_serves cfg t f index Hidle Hdir Hfind Hserv)
    as (Hst & Hreq & Hrd & Hrm & _).
  rewrite Hst, drop_app_length.
  destruct (generation_resets index (run cfg t).2) as [Hflag Hst'].
  destruct (generation_frame cfg svc index (run cfg t).2) as (H1 & H2 & H3 & _).
  rewrite Hflag, Hst', H1, H2, H3, Hst. done.
Qed.

(** A poll that finds no request starts nothing. *)
Lemma cycle_nothing t :
  isRunning t = false →
  readDirError (world t) = None →
  find (isRequest cfg) (requests (world t)) = None →
  let t' := pollAndGenerate cfg svc t in
  started t' = started t
  ∧ requests (world t') = requests (world t)
  ∧ readDirError (world t') = None
  ∧ removeError (world t') = removeError (world t)
  ∧ isRunning t' = false.
Proof.
  intros Hidle Hdir Hfind. cbn zeta. unfold pollAndGenerate. cbn zeta.
  destruct (run_nothing cfg t Hidle Hdir Hfind) as (Hst & Hreq & Hrd & Hrm & Hflag).
  rewrite Hst, drop_all. done.
Qed.

Lemma cycles_spec n : ∀ t indices,
  isRunning t = false →
  readDirError (world t) = None →
  NoDup (Name <$> requests (world t)) →
  Forall2 (servableAs cfg (world t)) (pending cfg (world t)) indices →
  started (cycles cfg svc n t) = started t ++ take n indices
  ∧ pending cfg (world (cycles cfg svc n t)) = drop n (pending cfg (world t))
  ∧ requests (world (cycles cfg svc n t))
    = filter (λ g, Name g ∉ Name <$> take n (pending cfg (world t)))
        (requests (world t))
  ∧ isRunning (cycles cfg svc n t) = false.
Proof.
  induction n as [|n IH]; intros t indices Hidle Hdir Hnodup Hserv.
  { cbn [cycles take drop fmap list_fmap]. rewrite app_nil_r. split_and!; try done.
    symmetry. apply filter_all, Forall_forall. intros g _. apply not_elem_of_nil. }
  cbn [cycles].
  pose proof (find_pending cfg (world t)) as Hfind.
  destruct (pending cfg (world t)) as [|f rest] eqn:Hpend.
  - apply Forall2_nil_inv_l in Hserv as ->. cbn [head] in Hfind.
    destruct (cycle_nothing t Hidle Hdir Hfind) as (Hst & Hreq & Hrd & Hrm & Hflag).
    assert (pending cfg (world (pollAndGenerate cfg svc t)) = []) as Hpend'.
    { unfold pending in *. by rewrite Hreq. }
    destruct (IH (pollAndGenerate cfg svc t) []) as (H1 & H2 & H3 & H4); try done.
    { by rewrite Hreq. }
    { rewrite Hpend'. constructor. }
    rewrite H1, H2, H3, Hpend', Hst, Hreq, !take_nil, !drop_nil. done.
  - apply Forall2_cons_inv_l in Hserv as (index & indices' & Hf & Hrest & ->).
    cbn [head] in Hfind.
    destruct (cycle_serves t f index Hidle Hdir Hfind Hf) as (Hst & Hreq & Hrd & Hrm & Hflag).
    assert (NoDup (Name <$> f :: rest)) as Hnd.
    { rewrite <-Hpend. unfold pending. eapply sublist_NoDup; [exact Hnodup|].
      apply fmap_sublist, sublist_filter. }
    cbn [fmap list_fmap] in Hnd. apply NoDup_cons in Hnd as [Hfresh Hnd].
    assert (pending cfg (world (pollAndGenerate cfg svc t)) = rest) as Hpend'.
    { unfold pending in *. rewrite Hreq, list_filter_filter.
      rewrite (list_filter_iff _ (λ g, Name g ≠ Name f ∧ isRequest cfg g = true))
        by (intros g; tauto).
      rewrite <-list_filter_filter, Hpend.
      rewrite filter_cons_False by (intros H; by apply H).
      apply filter_all, Forall_forall. intros g Hg Heq.
      apply Hfresh. rewrite <-Heq. apply list_elem_of_fmap. by exists g. }
    destruct (IH (pollAndGenerate cfg svc t) indices') as (H1 & H2 & H3 & H4); try done.
    { rewrite Hreq. eapply sublist_NoDup; [exact Hnodup|].
      apply fmap_sublist, sublist_filter. }
    { rewrite Hpend'. eapply Forall2_impl; [exact Hrest|].
      intros g i [? ?]. split; [done|]. by rewrite Hrm. }
    rewrite H1, H2, H3, H4, Hpend', Hst, Hreq. cbn [take drop].
    split_and!; try done.
    + by rewrite <-app_assoc.
    + rewrite list_filter_filter. apply list_filter_iff. intros g.
      cbn [fmap list_fmap]. rewrite not_elem_of_cons. tauto.
Qed.

End cycle_facts.

(** Requests are served one per poll, in the order of the listing: with
    every waiting request servable and each generation returned before
    the next poll, [n] polls start the generations of the first [n]
    requests, in that order and whatever the generations meet, and leave
    the other requests and every other entry of the folder in place. *)
Theorem requests_served_in_order {NodeRewards NetworkRewards Tree Wrapper}
    cfg (svc : Services NodeRewards NetworkRewards Tree Wrapper) t indices n :
  isRunning t = false →
  readDirError (world t) = None →
  NoDup (Name <$> requests (world t)) →
  Forall2 (servableAs cfg (world t)) (pending cfg (world t)) indices →
  started (cycles cfg svc n t) = started t ++ take n indices
  ∧ pending cfg (world (cycles cfg svc n t)) = drop n (pending cfg (world t))
  ∧ requests (world (cycles cfg svc n t))
    = filter (λ g, Name g ∉ Name <$> take n (pending cfg (world t)))
        (requests (world t))
  ∧ isRunning (cycles cfg svc n t) = false.
Proof. apply cycles_spec. Qed.

Lemma requests_served_in_order_witness :
  started (cycles sampleConfig (sampleServices rootA) 2
             (idle (worldOf [regular "notes.txt"; regular "7.request"; regular "5.request"])))
  = [7; 5]
  ∧ requests (world (cycles sampleConfig (sampleServices rootA) 2
             (idle (worldOf [regular "notes.txt"; regular "7.request"; regular "5.request"]))))
    = [regular "notes.txt"].
Proof.
  destruct (requests_served_in_order sampleConfig (sampleServices rootA)
              (idle (worldOf [regular "notes.txt"; regular "7.request"; regular "5.request"]))
              [7; 5] 2%nat) as (H1 & _ & H3 & _).
  - reflexivity.
  - reflexivity.
  - vm_compute. repeat constructor; rewrite ?elem_of_cons, ?elem_of_nil; intuition discriminate.
  - replace (pending sampleConfig _) with [regular "7.request"; regular "5.request"]
      by (by vm_compute).
    repeat constructor.
  - split; [exact H1|]. rewrite H3.
    replace (pending sampleConfig _) with [regular "7.request"; regular "5.request"]
      by (by vm_compute).
    vm_compute. reflexivity.
Defined.

(** A poll acts on the watchtower folder and on nothing else: it prints
    nothing on the error log, writes no file, and calls the filesystem
    only to list the folder and to remove a request file of the listing;
    the entries it leaves were there before; and it starts at most one
    generation, exactly when it raises the flag. *)
Theorem run_touches_only_requests cfg t :
  errLog (run cfg t).2 = errLog t
  ∧ disk (world (run cfg t).2) = disk (world t)
  ∧ requests (world (run cfg t).2) `sublist_of` requests (world t)
  ∧ (∃ calls,
       journal (world (run cfg t).2) = journal (world t) ++ calls
       ∧ Forall (λ c, c = SysReadDir (GetWatchtowerFolder cfg)
                      ∨ ∃ f, f ∈ requests (world t) ∧ isRequest cfg f = true
                             ∧ c = SysRemove (Join (GetWatchtowerFolder cfg) (Name f)))
           calls)
  ∧ ((started (run cfg t).2 = started t ∧ isRunning (run cfg t).2 = isRunning t)
     ∨ (∃ index,
          isRunning t = false ∧ (run cfg t).1 = None
          ∧ started (run cfg t).2 = started t ++ [index]
          ∧ isRunning (run cfg t).2 = true)).
Proof.
  destruct (isRunning t) eqn:Hflag.
  { rewrite (run_busy _ _ Hflag). cbn. split_and!; try done.
    - exists []. by rewrite app_nil_r.
    - by left. }
  rewrite (run_idle _ _ Hflag). cbn zeta. unfold ReadDir. cbn [log_Println world].
  destruct (readDirError (world t)) as [e|] eqn:Hdir.
  { cbn. split_and!; try done.
    - exists [SysReadDir (GetWatchtowerFolder cfg)]. split; [done|].
      repeat constructor.
    - left. by rewrite Hflag. }
  destruct (find (isRequest cfg) (requests (world t))) as [f|] eqn:Hfind.
  2:{ cbn. split_and!; try done.
      - exists [SysReadDir (GetWatchtowerFolder cfg)]. split; [done|].
        repeat constructor.
      - left. by rewrite Hflag. }
  pose proof (find_isRequest _ _ _ Hfind) as Hf.
  assert (f ∈ requests (world t)) as Hin.
  { apply find_some in Hfind as [Hin _]. by apply list_elem_of_In. }
  assert (Forall (λ c, c = SysReadDir (GetWatchtowerFolder cfg)
                       ∨ ∃ f, f ∈ requests (world t) ∧ isRequest cfg f = true
                              ∧ c = SysRemove (Join (GetWatchtowerFolder cfg) (Name f)))
            [SysReadDir (GetWatchtowerFolder cfg);
             SysRemove (Join (GetWatchtowerFolder cfg) (Name f))]) as Hcalls.
  { apply Forall_cons. split; [by left|].
    apply Forall_cons. split; [right; by exists f|]. constructor. }
  rewrite (scanRequests_request _ _ _ Hf).
  destruct (ParseUint cfg _) as [index|e].
  2:{ cbn. split_and!; try done.
      - exists [SysReadDir (GetWatchtowerFolder cfg)]. split; [done|].
        repeat constructor.
      - left. by rewrite Hflag. }
  cbn zeta. cbn [record removeError].
  destruct (removeError (world t) !! _) as [e|].
  - cbn. split_and!; try done.
    + eexists. split; [by rewrite <-app_assoc|done].
    + left. by rewrite Hflag.
  - cbn. split_and!; try done.
    + apply sublist_filter.
    + eexists. split; [by rewrite <-app_assoc|done].
    + right. by exists index.
Qed.

(** While a generation is running, polls leave the watchtower folder as
    it is: however many are made, no request is removed and none is
    served, so the requests wait for the generation to end. *)
Theorem polls_while_generating cfg t n :
  isRunning t = true →
  world (polls cfg n t) = world t
  ∧ started (polls cfg n t) = started t
  ∧ errLog (polls cfg n t) = errLog t
  ∧ isRunning (polls cfg n t) = true
  ∧ (run cfg (polls cfg n t)).1 = None.
Proof.
  revert t. induction n as [|n IH]; intros t Hflag.
  - cbn [polls]. rewrite (run_busy _ _ Hflag). done.
  - cbn [polls].
    assert (isRunning (run cfg t).2 = true) as Hflag'
      by (by rewrite (run_busy _ _ Hflag)).
    destruct (IH _ Hflag') as (-> & -> & -> & -> & ->).
    rewrite (run_busy _ _ Hflag). done.
Qed.

Lemma polls_while_generating_witness :
  requests (world (polls sampleConfig 3 busy)) = [regular "5.request"]
  ∧ started (polls sampleConfig 3 busy) = [].
Proof.
  destruct (polls_while_generating sampleConfig busy 3 eq_refl) as (H1 & H2 & _).
  rewrite H1, H2. done.
Defined.

(** ** Request file names *)

Lemma substring_all s : String.substring 0 (String.length s) s = s.
Proof. induction s as [|c s IH]; cbn; [done|by rewrite IH]. Qed.

Lemma substring_append_r p s :
  String.substring (String.length p) (String.length s) (p +:+ s) = s.
Proof. induction p as [|c p IH]; [apply substring_all|exact IH]. Qed.

Lemma substring_append_l p s :
  String.substring 0 (String.length p) (p +:+ s) = p.
Proof.
  induction p as [|c p IH]; [by destruct s|].
  change (String c (String.substring 0 (String.length p) (p +:+ s)) = String c p).
  by rewrite IH.
Qed.

Lemma length_append p s :
  String.length (p +:+ s) = (String.length p + String.length s)%nat.
Proof.
  induction p as [|c p IH]; [done|].
  change (S (String.length (p +:+ s)) = S (String.length p + String.length s)).
  by rewrite IH.
Qed.

Lemma HasSuffix_append p suffix : HasSuffix (p +:+ suffix) suffix = true.
Proof.
  unfold HasSuffix. rewrite length_append.
  replace (String.length p + String.length suffix - String.length suffix)%nat
    with (String.length p) by lia.
  rewrite substring_append_r, bool_decide_eq_true_2 by done.
  rewrite andb_true_r. apply Nat.leb_le. lia.
Qed.

Lemma TrimSuffix_append p suffix : TrimSuffix (p +:+ suffix) suffix = p.
Proof.
  unfold TrimSuffix. rewrite HasSuffix_append, length_append.
  replace (String.length p + String.length suffix - String.length suffix)%nat
    with (String.length p) by lia.
  apply substring_append_l.
Qed.

(** The index of a request is what stands before the suffix in the name of
    its file: a regular file named [p] followed by the suffix, met first
    by a poll, starts the generation for the value of [p], and the file is
    removed. *)
Theorem run_reads_index_from_name cfg t p index entries :
  isRunning t = false →
  readDirError (world t) = None →
  requests (world t)
  = regular (p +:+ RegenerateRewardsTreeRequestSuffix cfg) :: entries →
  ParseUint cfg p = Ok index →
  removeError (world t)
    !! Join (GetWatchtowerFolder cfg) (p +:+ RegenerateRewardsTreeRequestSuffix cfg)
  = None →
  (run cfg t).1 = None
  ∧ started (run cfg t).2 = started t ++ [index]
  ∧ regular (p +:+ RegenerateRewardsTreeRequestSuffix cfg)
    ∉ requests (world (run cfg t).2).
Proof.
  intros Hidle Hdir Hreq Hparse Hrm.
  set (f := regular (p +:+ RegenerateRewardsTreeRequestSuffix cfg)) in *.
  assert (isRequest cfg f = true) as Hf.
  { unfold isRequest, f. cbn [Name IsDir regular]. by rewrite HasSuffix_append. }
  assert (find (isRequest cfg) (requests (world t)) = Some f) as Hfind.
  { rewrite Hreq. cbn [find]. by rewrite Hf. }
  rewrite (run_idle _ _ Hidle). cbn zeta.
  unfold ReadDir. cbn [log_Println world]. rewrite Hdir, Hfind.
  rewrite (scanRequests_request _ _ _ Hf).
  cbn [f Name regular]. rewrite TrimSuffix_append, Hparse.
  cbn zeta. cbn [record removeError]. rewrite Hrm. cbn.
  split_and!; try done.
  intros Hin. apply list_elem_of_filter in Hin as [Hne _]. by apply Hne.
Qed.

Lemma run_reads_index_from_name_witness :
  started (run sampleConfig (idle (worldOf [regular "12.request"; regular "notes.txt"]))).2
  = [12].
Proof.
  destruct (run_reads_index_from_name sampleConfig
              (idle (worldOf [regular "12.request"; regular "notes.txt"]))
              "12" 12 [regular "notes.txt"] eq_refl eq_refl eq_refl eq_refl eq_refl)
    as (_ & H & _).
  exact H.
Defined.

(** ** More on the generation *)

(** A generation acts on the file of its own artifact and on no other:
    whatever its stages meet, the watchtower folder is as it was, every
    other file on disk is as it was, and the only call into the filesystem
    it may make is one [ioutil.WriteFile] of the artifact's path. *)
Theorem generation_touches_only_its_artifact {NodeRewards NetworkRewards Tree Wrapper}
    cfg (svc : Services NodeRewards NetworkRewards Tree Wrapper) index t :
  requests (world (generateRewardsTree cfg svc index t)) = requests (world t)
  ∧ (∀ path, path ≠ GetRewardsTreePath cfg index →
             disk (world (generateRewardsTree cfg svc index t)) !! path
             = disk (world t) !! path)
  ∧ (journal (world (generateRewardsTree cfg svc index t)) = journal (world t)
     ∨ ∃ data,
         journal (world (generateRewardsTree cfg svc index t))
         = journal (world t) ++ [SysWriteFile (GetRewardsTreePath cfg index) data 420]).
Proof.
  destruct (generation_frame cfg svc index t) as (Hreq & _ & _ & _ & Hdisk).
  split_and!; [done|done|].
  destruct (generation_outcome cfg svc index (world t))
    as [(ev & tree & data & Hs)|[msg Hf]].
  - destruct (generation_succeeds cfg svc index t ev tree data Hs)
      as (_ & _ & _ & _ & Hj & _). right. by exists data.
  - by destruct (generation_fails cfg svc index t msg Hf) as (_ & _ & _ & _ & Hj).
Qed.

Section prefix_facts.
Variable index : Z.
Variable t0 : State.

Lemma printed_refl :
  ∃ lines, log t0 = log t0 ++ lines ∧ Forall (ofInterval index) lines.
Proof. exists []. by rewrite app_nil_r. Qed.

Lemma printed_log line t :
  ofInterval index line →
  (∃ lines, log t = log t0 ++ lines ∧ Forall (ofInterval index) lines) →
  ∃ lines, log (log_Println line t) = log t0 ++ lines
           ∧ Forall (ofInterval index) lines.
Proof.
  intros Hline (lines & Hlog & Hall). exists (lines ++ [line]).
  rewrite log_log, Hlog, <-app_assoc. split; [done|].
  apply Forall_app. split; [done|]. by repeat constructor.
Qed.

Lemma printed_lines ls t :
  Forall (ofInterval index) ls →
  (∃ lines, log t = log t0 ++ lines ∧ Forall (ofInterval index) lines) →
  ∃ lines, log (foldl (λ t line, log_Println line t) t ls) = log t0 ++ lines
           ∧ Forall (ofInterval index) lines.
Proof.
  intros Hls (lines & Hlog & Hall). exists (lines ++ ls).
  rewrite log_lines, Hlog, <-app_assoc. split; [done|].
  by apply Forall_app.
Qed.

Lemma printed_handleError e t :
  (∃ lines, log t = log t0 ++ lines ∧ Forall (ofInterval index) lines) →
  ∃ lines, log (handleError e t) = log t0 ++ lines
           ∧ Forall (ofInterval index) lines.
Proof. by rewrite log_handleError. Qed.

Lemma printed_set_world w t :
  (∃ lines, log t = log t0 ++ lines ∧ Forall (ofInterval index) lines) →
  ∃ lines, log (set_world w t) = log t0 ++ lines
           ∧ Forall (ofInterval index) lines.
Proof. by rewrite log_set_world. Qed.

Lemma printed_set_isRunning b t :
  (∃ lines, log t = log t0 ++ lines ∧ Forall (ofInterval index) lines) →
  ∃ lines, log (set_isRunning b t) = log t0 ++ lines
           ∧ Forall (ofInterval index) lines.
Proof. by rewrite log_set_isRunning. Qed.

End prefix_facts.

Lemma invalidNetworkWarnings_ofInterval index invalid :
  Forall (ofInterval index) (invalidNetworkWarnings (intervalPrefix index) invalid).
Proof.
  unfold invalidNetworkWarnings. apply Forall_fmap, Forall_forall.
  intros [address network] _. cbn. by eexists.
Qed.

Ltac printed :=
  repeat first
    [ apply printed_handleError
    | apply printed_set_isRunning
    | apply printed_set_world
    | apply printed_lines; [apply invalidNetworkWarnings_ofInterval|]
    | apply printed_log; [by eexists|]
    | apply printed_refl ].

(** Every line a generation prints on the log begins with the prefix of
    its interval, whatever its stages meet: the lines of two generations
    can be told apart. *)
Theorem generation_lines_prefixed {NodeRewards NetworkRewards Tree Wrapper}
    cfg (svc : Services NodeRewards NetworkRewards Tree Wrapper) index t :
  ∃ lines,
    log (generateRewardsTree cfg svc index t) = log t ++ lines
    ∧ Forall (ofInterval index) lines.
Proof.
  unfold generateRewardsTree. cbn zeta.
  destruct (GetEventLogInterval svc) as [n|e]; [|by printed].
  destruct (GetRewardSnapshotEvent svc index (int64 n)) as [ev|e]; [|by printed].
  destruct (GetEth2Config svc) as [c|e]; [|by printed].
  destruct (GetELBlockHeaderForTime svc (blockTimeOf ev c)) as [hdr|e]; [|by printed].
  destruct (CalculateRplRewards svc hdr _) as [[[nodes nets] invalid]|e]; [|by printed].
  destruct (GenerateMerkleTree svc nodes) as [tree|e]; [|by printed].
  match goal with
  | |- context [log_Println _ (if ?b then log_Println ?x ?u else log_Println ?y ?u)] =>
      replace (if b then log_Println x u else log_Println y u)
        with (log_Println (if b then x else y) u) by (by destruct b);
      assert (ofInterval index (if b then x else y)) as Hverdict
        by (destruct b; by eexists);
      revert Hverdict; generalize (if b then x else y); intros verdict Hverdict
  end.
  destruct (json_Marshal svc _) as [data|e].
  2:{ printed. apply printed_log; [done|]. printed. }
  destruct (WriteFile _ _ _ _) as [[e|] w].
  - printed. apply printed_log; [done|]. printed.
  - printed. apply printed_log; [done|]. printed.
Qed.

(** ** The lock and the flag, with any number of callers *)

(** The two invariants that hold whether or not calls of [run] overlap:
    the lock is held by exactly the threads inside a critical section, of
    which there is at most one; and while the flag is up, a thread that
    will bring it down is in the pool. *)
Lemma lockFlagInv_step single cfg s s' :
  step single cfg s s' →
  sum_list_with holdsLock (threads s) = (if locked s then 1 else 0)%nat
  ∧ (isRunning (shared s) = true → (1 ≤ sum_list_with needsFlag (threads s))%nat) →
  sum_list_with holdsLock (threads s') = (if locked s' then 1 else 0)%nat
  ∧ (isRunning (shared s') = true → (1 ≤ sum_list_with needsFlag (threads s'))%nat).
Proof.
  intros Hstep (Hlock & Hflag).
  destruct Hstep;
    repeat match goal with
           | H : threads _ = _ |- _ => rewrite H in *; clear H
           | H : locked _ = _ |- _ => rewrite H in *; clear H
           | H : sameFlag _ _ |- _ => destruct H as [H ?]
           end;
    cbn [shared locked threads isRunning set_isRunning set_world log_Println
         go_generateRewardsTree] in *;
    repeat match goal with
           | H : isRunning _ = isRunning _ |- _ => rewrite H in *; clear H
           end;
    rewrite ?sum_list_with_app in *; cbn [sum_list_with] in *;
    rewrite ?sum_list_with_app in *; cbn [sum_list_with] in *;
    cbn [holdsLock needsFlag] in *;
    try (destruct (locked s) eqn:?);
    try (destruct (isRunning (shared s)) eqn:?);
    split_and!; try lia; try (intros; lia); try (intros ?; discriminate);
    try (intros _; specialize (Hflag eq_refl); lia).
Qed.

Lemma lockFlagInv_reachable single cfg w s :
  rtc (step single cfg) (boot w) s →
  sum_list_with holdsLock (threads s) = (if locked s then 1 else 0)%nat
  ∧ (isRunning (shared s) = true → (1 ≤ sum_list_with needsFlag (threads s))%nat).
Proof.
  intros Hrtc. revert s Hrtc. apply rtc_ind_r.
  - cbn. split; [done|]. discriminate.
  - intros s1 s2 _ Hstep IH. by eapply lockFlagInv_step.
Qed.

Lemma returned_weights l :
  Forall (λ th, returned th = true) l →
  sum_list_with holdsLock l = 0%nat ∧ sum_list_with needsFlag l = 0%nat.
Proof.
  induction 1 as [|th l Hth _ [IH1 IH2]]; [done|].
  cbn [sum_list_with]. rewrite IH1, IH2.
  by destruct th as [[]|? []].
Qed.

(** Of two overlapping calls of [run], one is inside its first critical
    section while the other waits for the lock. *)
Lemma call_in_critical_section :
  ∃ s, rtc (step false sampleConfig) (boot twoRequests) s ∧ locked s = true.
Proof.
  eexists. split.
  - eapply rtc_l; [apply (step_call false sampleConfig); intros [=]|]; cbn.
    eapply rtc_l; [apply (step_call false sampleConfig); intros [=]|]; cbn.
    schedule (step_run_lock false sampleConfig _ [] [RunCall RunEntry]).
    apply rtc_refl.
  - reflexivity.
Qed.

(** A call of [run] serves a request and the generation it starts runs to
    its return. *)
Lemma generation_returned :
  ∃ s, rtc (step true sampleConfig) (boot twoRequests) s
       ∧ Forall (λ th, returned th = true) (threads s)
       ∧ started (shared s) = [5].
Proof.
  eexists. split.
  - schedule (step_call true sampleConfig).
    schedule (step_run_lock true sampleConfig _ [] []).
    schedule (step_run_pass true sampleConfig _ [] []).
    schedule (step_run_readdir true sampleConfig _ [] []).
    schedule (step_run_scan_request true sampleConfig _ [] []).
    schedule (step_run_relock true sampleConfig _ [] []).
    schedule (step_run_set true sampleConfig _ [] []).
    schedule (step_run_unlock true sampleConfig _ [] []).
    schedule (step_run_go true sampleConfig _ [] []).
    schedule (step_gen_finish true sampleConfig _ [RunCall (RunReturned None)] []).
    schedule (step_gen_lock true sampleConfig _ [RunCall (RunReturned None)] []).
    schedule (step_gen_reset true sampleConfig _ [RunCall (RunReturned None)] []).
    schedule (step_gen_unlock true sampleConfig _ [RunCall (RunReturned None)] []).
    apply rtc_refl.
  - split; [|reflexivity]. by repeat constructor.
Qed.

(** Mutual exclusion on [t.lock], also with overlapping calls of [run]:
    at every moment at most one thread is between a [Lock()] and its
    [Unlock()], and the lock is held exactly when there is one. *)
Theorem lock_held_by_one_thread single cfg w s :
  rtc (step single cfg) (boot w) s →
  sum_list_with holdsLock (threads s) = (if locked s then 1 else 0)%nat.
Proof. intros Hrtc. by destruct (lockFlagInv_reachable single cfg w s Hrtc). Qed.

Lemma lock_held_by_one_thread_witness :
  ∃ s, rtc (step false sampleConfig) (boot twoRequests) s
       ∧ locked s = true
       ∧ sum_list_with holdsLock (threads s) = (if locked s then 1 else 0)%nat.
Proof.
  destruct call_in_critical_section as (s & Hreach & Hlocked).
  exists s. split_and!; [exact Hreach|exact Hlocked|].
  exact (lock_held_by_one_thread false sampleConfig twoRequests s Hreach).
Defined.

(** Neither the lock nor the flag is left behind: once every call of
    [run] and every generation has returned, the lock is free and
    [isRunning] is false, so the next poll reads the folder. This holds
    also when calls of [run] overlap. *)
Theorem quiescent_process_is_idle single cfg w s :
  rtc (step single cfg) (boot w) s →
  Forall (λ th, returned th = true) (threads s) →
  locked s = false ∧ isRunning (shared s) = false.
Proof.
  intros Hrtc Hreturned.
  destruct (lockFlagInv_reachable single cfg w s Hrtc) as [Hlock Hflag].
  destruct (returned_weights _ Hreturned) as [H1 H2]. rewrite H1 in Hlock.
  split.
  - by destruct (locked s).
  - destruct (isRunning (shared s)); [|done]. specialize (Hflag eq_refl). lia.
Qed.

Lemma quiescent_process_is_idle_witness :
  ∃ s, rtc (step true sampleConfig) (boot twoRequests) s
       ∧ started (shared s) = [5]
       ∧ locked s = false ∧ isRunning (shared s) = false.
Proof.
  destruct generation_returned as (s & Hreach & Hreturned & Hstarted).
  exists s. split_and!; [exact Hreach|exact Hstarted|..];
    apply (quiescent_process_is_idle true sampleConfig twoRequests s Hreach Hreturned).
Defined.

Lemma sum_list_with_pos {A} (f : A → nat) (l : list A) :
  (1 ≤ sum_list_with f l)%nat →
  ∃ pre x post, l = pre ++ x :: post ∧ (1 ≤ f x)%nat.
Proof.
  induction l as [|x l IH]; cbn [sum_list_with]; [lia|].
  intros Hsum. destruct (decide (1 ≤ f x)%nat) as [Hx|Hx].
  - by exists [], x, l.
  - destruct IH as (pre & y & post & -> & Hy); [lia|].
    by exists (x :: pre), y, post.
Qed.

(** The lock is never held across a wait: whenever it is held, the thread
    that holds it frees it within two steps of its own, whatever the other
    threads and the filesystem do. The critical sections hold no call into
    the filesystem and no generation. *)
Theorem lock_always_released single cfg w s :
  rtc (step single cfg) (boot w) s →
  locked s = true →
  ∃ s', (step single cfg s s' ∨ ∃ s1, step single cfg s s1 ∧ step single cfg s1 s')
        ∧ locked s' = false
        ∧ world (shared s') = world (shared s)
        ∧ started (shared s') = started (shared s).
Proof.
  intros Hrtc Hlocked.
  destruct (lockFlagInv_reachable single cfg w s Hrtc) as [Hlock _].
  rewrite Hlocked in Hlock.
  destruct (sum_list_with_pos holdsLock (threads s)) as (pre & th & post & Hth & Hholds);
    [lia|].
  destruct th as [[]|index []]; cbn in Hholds; try lia.
  - (* [RunLocked] *)
    destruct (isRunning (shared s)) eqn:Hflag.
    + eexists. split; [left; by eapply step_run_busy|]. done.
    + eexists. split; [left; by eapply step_run_pass|]. done.
  - (* [RunSetting] *)
    eexists. split.
    + right. eexists. split; [by eapply step_run_set|].
      by eapply (step_run_unlock _ _ _ pre post).
    + done.
  - (* [RunUnlocking] *)
    eexists. split; [left; by eapply step_run_unlock|]. done.
  - (* [GenLocked] *)
    eexists. split.
    + right. eexists. split; [by eapply step_gen_reset|].
      by eapply (step_gen_unlock _ _ _ pre post).
    + done.
  - (* [GenUnlocking] *)
    eexists. split; [left; by eapply step_gen_unlock|]. done.
Qed.

Lemma lock_always_released_witness :
  ∃ s s', rtc (step false sampleConfig) (boot twoRequests) s
          ∧ locked s = true
          ∧ locked s' = false
          ∧ world (shared s') = world (shared s).
Proof.
  destruct call_in_critical_section as (s & Hreach & Hlocked).
  destruct (lock_always_released false sampleConfig twoRequests s Hreach Hlocked)
    as (s' & _ & Hfree & Hworld & _).
  exists s, s'. split_and!; [exact Hreach|exact Hlocked|exact Hfree|exact Hworld].
Defined.

(** ** The metrics step of the configuration wizard *)

(** The choice made on the metrics step is the one the step shows when it
    is opened again: after the button [buttonIndex] of the two is pressed,
    the setting is a [bool], true exactly for the first button, and [show]
    puts the focus on that same button; and the press leaves the consensus
    client mode alone, so [back] leads where it led before. *)
Theorem metrics_choice_round_trip buttonIndex buttonLabel page cfg :
  0 ≤ buttonIndex < Z.of_nat (length config.labels) →
  let cfg' := (config.done buttonIndex buttonLabel cfg).1 in
  config.EnableMetrics cfg' = config.VBool (bool_decide (buttonIndex = 0))
  ∧ config.show page cfg' = [config.setPage page; config.focus buttonIndex]
  ∧ config.back cfg' = config.back cfg
  ∧ (config.done buttonIndex buttonLabel cfg).2 = [config.showModal config.finishedModal].
Proof.
  intros Hrange. cbn in Hrange. cbn zeta.
  unfold config.done, config.show, config.back. cbn [fst snd].
  case_bool_decide as Hzero.
  - subst buttonIndex. done.
  - cbn. assert (buttonIndex = 1) as -> by lia. done.
Qed.

Lemma metrics_choice_round_trip_witness :
  config.show "step-metrics"
    (config.done 1 "No"
       {| config.EnableMetrics := config.VBool true;
          config.ConsensusClientMode := config.VOther "local" |}).1
  = [config.setPage "step-metrics"; config.focus 1].
Proof.
  destruct (metrics_choice_round_trip 1 "No" "step-metrics"
              {| config.EnableMetrics := config.VBool true;
                 config.ConsensusClientMode := config.VOther "local" |})
    as (_ & H & _).
  - cbn. lia.
  - exact H.
Defined.
